(** * ASI-GO-3, the Engineer: extraction, sandboxed run and validation

    A shallow embedding of [src/engineer.py] and of [src/researcher.py],
    and the properties of their natural-language specification.

    Conventions of the embedding.
    - Python [int] is [Z] (unbounded), [len] is [Z.of_nat (length _)];
      [int] of a run of digits is its value, whatever its length.
    - Python [str] is [string]: one [ascii] per code point, so the model
      covers the code points below 256.  [str.lower], [str.strip] and the
      classes [\d], [\w], [\s] of [re] act on them as CPython does on that
      range.
    - A [while] loop is the iteration of its body, a function from the
      loop state to either the next state or the value returned; the
      number of rounds is bounded by a binary counter, and the theorems
      show that the bound is never reached.
    - The numeric confidence literals and the clock are rationals ([Q]).
    - The operating system (temporary files, the clock, the child
      process) is a record of answers, [world]; the file system is the
      list of the paths that exist.  Exceptions are those the [except]
      clauses of the code catch ([Exception] and its subclasses).
    - Calls of the logger change nothing and are left out. *)

From Stdlib Require Import ZArith Znumtheory Lia List Bool.
From Stdlib Require Import Ascii String QArith DecimalString.
From Stdlib Require DecimalPos.
Import ListNotations.

Open Scope Z_scope.

(** ** Loops *)

Module Loop.

Section Iterate.
Context {S R : Type}.
Variable body : S -> S + R.

(** [rounds k s]: at most [k] rounds of the body from state [s]. *)
Fixpoint rounds (k : nat) (s : S) : S + R :=
  match k with
  | O => inl s
  | Datatypes.S k' =>
      match body s with
      | inl s' => rounds k' s'
      | inr r => inr r
      end
  end.

Definition andthen (x : S + R) (f : S -> S + R) : S + R :=
  match x with
  | inl s => f s
  | inr r => inr r
  end.

(** [while p s]: at most [p] rounds, [p] in binary. *)
Fixpoint while (p : positive) (s : S) : S + R :=
  match p with
  | xH => body s
  | xO q => andthen (while q s) (while q)
  | xI q => andthen (body s) (fun s1 => andthen (while q s1) (while q))
  end.

End Iterate.

End Loop.

(** ** Primes (module level helpers of engineer.py) *)

(** One round of [while f * f <= n] in [_is_prime]; the state is
    [(f, step)]. *)
Definition is_prime_body (n : Z) (st : Z * Z) : (Z * Z) + bool :=
  let '(f, step) := st in
  if f * f <=? n then
    if n mod f =? 0 then inr false
    else inl (f + step, 6 - step)
  else inr true.

Definition _is_prime (n : Z) : bool :=
  if n <? 2 then false
  else if (n =? 2) || (n =? 3) then true
  else if (n mod 2 =? 0) || (n mod 3 =? 0) then false
  else
    match Loop.while (is_prime_body n) (Z.to_pos n) (5, 2) with
    | inr b => b
    | inl _ => true
    end.

(** One round of [while len(primes) < n] in [_first_n_primes]; the state
    is [(primes, x)]. *)
Definition first_n_primes_body (n : Z) (st : list Z * Z)
  : (list Z * Z) + list Z :=
  let '(primes, x) := st in
  if Z.of_nat (List.length primes) <? n then
    inl (if _is_prime x then primes ++ [x] else primes, x + 1)
  else inr primes.

(** A bound on the number of rounds: the [n]-th prime is below
    [2 ^ 2 ^ n]. *)
Definition primes_rounds (n : Z) : positive :=
  Z.to_pos (2 ^ (2 ^ Z.max 0 n)).

Definition _first_n_primes (n : Z) : list Z :=
  match Loop.while (first_n_primes_body n) (primes_rounds n) ([], 2) with
  | inr primes => primes
  | inl (primes, _) => primes
  end.

(** *** The sequence of the primes

    [consecutive_primes lo l]: [l] lists primes in increasing order and
    skips none; its first element is the least prime above [lo]. *)
Inductive consecutive_primes : Z -> list Z -> Prop :=
| cp_nil (lo : Z) : consecutive_primes lo []
| cp_cons (lo p : Z) (rest : list Z) :
    lo < p -> Z.prime p -> (forall q, lo < q < p -> ~ Z.prime q) ->
    consecutive_primes p rest -> consecutive_primes lo (p :: rest).

(** [l] is the sequence of the first [n] primes. *)
Definition first_primes_of (n : nat) (l : list Z) : Prop :=
  List.length l = n /\ consecutive_primes 1 l.

(** No divisor of [n] in [2, f). *)
Definition no_divisor_below (f n : Z) : Prop :=
  forall d, 2 <= d < f -> ~ (d | n).

(** The candidates of [_is_prime]: [f] is 5 or 1 modulo 6, and [step]
    leads to the next one. *)
Definition wheel (f step : Z) : Prop :=
  5 <= f /\ ((step = 2 /\ f mod 6 = 5) \/ (step = 4 /\ f mod 6 = 1)).

(** The list [primes] of [_first_n_primes] after [k] rounds that did not
    leave the loop. *)
Fixpoint primes_below (k : nat) : list Z :=
  match k with
  | O => []
  | S k' =>
      if _is_prime (2 + Z.of_nat k') then primes_below k' ++ [2 + Z.of_nat k']
      else primes_below k'
  end.

Definition product (l : list Z) : Z := fold_right Z.mul 1 l.

(** [2 * euclid_bound n] is [2 ^ 2 ^ n]. *)
Fixpoint euclid_bound (n : nat) : Z :=
  match n with
  | O => 1
  | S n' => 2 * euclid_bound n' * euclid_bound n'
  end.

(** ** Text: the operations of [str] the code uses *)

Open Scope string_scope.

Definition code_point (c : ascii) : N := N_of_ascii c.

Definition between (lo hi : N) (c : ascii) : bool :=
  ((lo <=? code_point c) && (code_point c <=? hi))%N.

(** [str.isspace] on one character, which is also the class [\s]. *)
Definition isspace (c : ascii) : bool :=
  between 9 13 c || between 28 32 c
  || (code_point c =? 133)%N || (code_point c =? 160)%N.

(** The class [\d]: the decimal digits. *)
Definition isdigit (c : ascii) : bool := between 48 57 c.

(** The class [\w]: letters, digits, other numeric characters and the
    underscore. *)
Definition isword (c : ascii) : bool :=
  isdigit c || between 65 90 c || between 97 122 c
  || (code_point c =? 95)%N
  || (code_point c =? 170)%N || (code_point c =? 178)%N
  || (code_point c =? 179)%N || (code_point c =? 181)%N
  || (code_point c =? 185)%N || (code_point c =? 186)%N
  || between 188 190 c
  || between 192 214 c || between 216 246 c || between 248 255 c.

Definition lower_char (c : ascii) : ascii :=
  if between 65 90 c
     || (between 192 222 c && negb (code_point c =? 215)%N)
  then ascii_of_N (code_point c + 32)
  else c.

(** [s.lower()] *)
Fixpoint lower (s : string) : string :=
  match s with
  | EmptyString => EmptyString
  | String c s' => String (lower_char c) (lower s')
  end.

Fixpoint lstrip (s : string) : string :=
  match s with
  | EmptyString => EmptyString
  | String c s' => if isspace c then lstrip s' else s
  end.

Fixpoint rstrip (s : string) : string :=
  match s with
  | EmptyString => EmptyString
  | String c s' =>
      match rstrip s' with
      | EmptyString => if isspace c then EmptyString else String c EmptyString
      | r => String c r
      end
  end.

(** [s.strip()] *)
Definition strip (s : string) : string := rstrip (lstrip s).

(** [s.startswith(p)] *)
Definition startswith (s p : string) : bool := String.prefix p s.

(** [s[n:]] for [n >= 0] *)
Fixpoint drop (n : nat) (s : string) : string :=
  match n, s with
  | O, _ => s
  | S n', String _ s' => drop n' s'
  | S _, EmptyString => EmptyString
  end.

(** [s.endswith(p)] *)
Definition endswith (s p : string) : bool :=
  (String.length p <=? String.length s)%nat
  && String.eqb (drop (String.length s - String.length p) s) p.

(** [sub in s] *)
Fixpoint contains (sub s : string) : bool :=
  String.prefix sub s
  || match s with
     | EmptyString => false
     | String _ s' => contains sub s'
     end.

Definition newline : ascii := ascii_of_N 10.
Definition nl : string := String newline EmptyString.
Definition dquote : string := String (ascii_of_N 34) EmptyString.

(** [s.split("\n")] *)
Fixpoint split_lines (s : string) : list string :=
  match s with
  | EmptyString => [EmptyString]
  | String c s' =>
      if Ascii.eqb c newline then EmptyString :: split_lines s'
      else
        match split_lines s' with
        | l :: ls => String c l :: ls
        | [] => [String c EmptyString]
        end
  end.

(** ["\n".join(ls)] *)
Definition join_lines (ls : list string) : string := String.concat nl ls.

(** [cut pat s]: the text before and the text after the first
    occurrence of [pat] in [s]. *)
Fixpoint cut (pat s : string) : option (string * string) :=
  if String.prefix pat s then Some (EmptyString, drop (String.length pat) s)
  else
    match s with
    | EmptyString => None
    | String c s' =>
        match cut pat s' with
        | Some (before, after) => Some (String c before, after)
        | None => None
        end
    end.

(** The longest prefix whose characters are all in a class, and the
    rest. *)
Fixpoint span (p : ascii -> bool) (s : string) : string * string :=
  match s with
  | EmptyString => (EmptyString, EmptyString)
  | String c s' =>
      if p c then let '(a, b) := span p s' in (String c a, b)
      else (EmptyString, s)
  end.

(** [str(n)] for an integer *)
Definition str_of_int (n : Z) : string := NilZero.string_of_int (Z.to_int n).

Definition digit_value (c : ascii) : Z := Z.of_N (code_point c) - 48.

Fixpoint digits_value (acc : Z) (s : string) : Z :=
  match s with
  | EmptyString => acc
  | String c s' => digits_value (10 * acc + digit_value c) s'
  end.

(** [int(tok)] for a token of the shape [-?\d+] *)
Definition int_of_token (tok : string) : Z :=
  match tok with
  | String c d => if Ascii.eqb c "-" then - digits_value 0 d
                  else digits_value 0 tok
  | EmptyString => 0
  end.

(** ** Regular expressions: [re.findall] for the patterns of the code

    A pattern is given by its match at the start of a text: the captured
    group (the whole match when the pattern has no group) and the text
    after the match.  None of the patterns matches the empty text, so
    [findall] tries each start from left to right and resumes after
    each match. *)

Definition matcher := string -> option (string * string).

Fixpoint findall_from (rounds : nat) (m : matcher) (s : string)
  : list string :=
  match rounds with
  | O => []
  | S k =>
      match m s with
      | Some (g, rest) => g :: findall_from k m rest
      | None =>
          match s with
          | EmptyString => []
          | String _ s' => findall_from k m s'
          end
      end
  end.

Definition findall (m : matcher) (s : string) : list string :=
  findall_from (S (String.length s)) m s.

(** [\d+] *)
Definition re_digits : matcher := fun s =>
  match span isdigit s with
  | (EmptyString, _) => None
  | (d, rest) => Some (d, rest)
  end.

(** [-?\d+] *)
Definition re_int : matcher := fun s =>
  match s with
  | String c s' =>
      if Ascii.eqb c "-" then
        match re_digits s' with
        | Some (d, rest) => Some (String c d, rest)
        | None => None
        end
      else re_digits s
  | EmptyString => None
  end.

Definition expect (lit : string) (s : string) : option string :=
  if String.prefix lit s then Some (drop (String.length lit) s) else None.

(** [def\s+(\w+)\s*\([^)]*\):] *)
Definition re_def : matcher := fun s =>
  match expect "def" s with
  | None => None
  | Some s1 =>
      match span isspace s1 with
      | (EmptyString, _) => None
      | (_, s2) =>
          match span isword s2 with
          | (EmptyString, _) => None
          | (name, s3) =>
              let '(_, s4) := span isspace s3 in
              match expect "(" s4 with
              | None => None
              | Some s5 =>
                  let '(_, s6) := span (fun c => negb (Ascii.eqb c ")")) s5 in
                  match expect "):" s6 with
                  | None => None
                  | Some s7 => Some (name, s7)
                  end
              end
          end
      end
  end.

Definition fence : string := "```".

(** [opener(.*?)```] with [re.DOTALL], for a literal [opener] *)
Definition re_fenced (opener : string) : matcher := fun s =>
  match expect opener s with
  | None => None
  | Some body => cut fence body
  end.

(** ** The Engineer *)

(** *** [extract_code] *)

(** [max(m :: ms, key=len)]: the first of the longest. *)
Fixpoint max_by_len (best : string) (ms : list string) : string :=
  match ms with
  | [] => best
  | m :: rest =>
      if (String.length best <? String.length m)%nat
      then max_by_len m rest
      else max_by_len best rest
  end.

Definition start_keywords : list string :=
  ["import "; "from "; "def "; "class "].

Definition statement_prefixes : list string :=
  ["#"; "import"; "from"; "def"; "class"; "if"; "for"; "while"; "return";
   "print"; "try"; "except"; "elif"; "else"].

Definition starts_with_any (stripped : string) (ps : list string) : bool :=
  existsb (startswith stripped) ps.

(** The line that ends the capture: not blank, no recognized prefix, no
    colon at its end. *)
Definition reenters_prose (stripped : string) : bool :=
  negb (String.eqb stripped EmptyString)
  && negb (starts_with_any stripped statement_prefixes)
  && negb (endswith stripped ":").

(** The [for line in lines] loop; [in_code] is the flag, the result is
    [code_lines]. *)
Fixpoint collect_lines (in_code : bool) (lines : list string)
  : list string :=
  match lines with
  | [] => []
  | line :: rest =>
      let stripped := strip line in
      let in_code := in_code || starts_with_any stripped start_keywords in
      if in_code then
        if reenters_prose stripped then []
        else line :: collect_lines in_code rest
      else collect_lines in_code rest
  end.

Definition looks_like_code (code : string) : bool :=
  contains "def " code || contains "import " code || contains "print" code.

Definition extract_code (solution : string) : option string :=
  match findall (re_fenced ("```python" ++ nl)) solution with
  | m :: ms => Some (max_by_len m ms)
  | [] =>
      let generic :=
        match findall (re_fenced ("```" ++ nl)) solution with
        | m :: ms =>
            let code := max_by_len m ms in
            if looks_like_code code then Some code else None
        | [] => None
        end in
      match generic with
      | Some code => Some code
      | None =>
          match collect_lines false (split_lines solution) with
          | [] => None
          | code_lines => Some (join_lines code_lines)
          end
      end
  end.

(** *** The entry point added to code that has none *)

Definition main_hints : list string :=
  ["main"; "find"; "get"; "calculate"; "solve"].

Definition hinted (func : string) : bool :=
  existsb (fun k => contains k (lower func)) main_hints.

(** Truth value of an optional text: [None] and the empty text are
    false. *)
Definition truthy (o : option string) : bool :=
  match o with
  | Some (String _ _) => true
  | _ => false
  end.

Definition select_main (functions : list string) : option string :=
  match functions with
  | [] => None
  | _ =>
      let selected := List.find hinted functions in
      if truthy selected then selected
      else Some (List.last functions EmptyString)
  end.

Definition epilogue (func arg : string) : string :=
  nl ++ nl ++ "if __name__ == " ++ dquote ++ "__main__" ++ dquote ++ ":" ++ nl
  ++ "    result = " ++ func ++ "(" ++ arg ++ ")" ++ nl
  ++ "    print(result)" ++ nl.

Definition has_main (code : string) : bool :=
  contains "__main__" code || contains "print(" code.

Definition add_main_shim (code goal : string) : string :=
  if has_main code then code
  else
    let goal_lower := lower goal in
    let functions := findall re_def code in
    let selected_main_func := select_main functions in
    if truthy selected_main_func then
      let func := match selected_main_func with
                  | Some f => f
                  | None => EmptyString
                  end in
      let numbers := findall re_digits goal_lower in
      match numbers with
      | n :: _ =>
          if contains "prime" goal_lower then code ++ epilogue func n
          else code ++ epilogue func EmptyString
      | [] =>
          if contains "prime" goal_lower && contains "first" goal_lower
          then code ++ epilogue func "40"
          else code ++ epilogue func EmptyString
      end
    else code.

(** *** The sandboxed run *)

Record proposal := {
  goal : string;
  solution : string;
  strategies_used : list string;
  notes : string
}.

Record result := {
  success : bool;
  output : option string;
  error : option string;
  issues : list string;
  execution_time : option Q
}.

(** Exceptions, as the handlers of [test_solution] tell them apart:
    [subprocess.TimeoutExpired], or any other [Exception] with the name
    of its class and its message. *)
Inductive exn :=
| TimeoutExpired
| Raised (class_name message : string).

Record completed := {
  returncode : Z;
  stdout : string;
  stderr : string
}.

(** The answers of the operating system during one call.  A file system
    is the list of the paths that exist. *)
Record world := {
  (** [tempfile.NamedTemporaryFile(mode="w", suffix=".py", delete=False)]:
      the name of the file it creates *)
  tmp_create : exn + string;
  (** [f.write(code)] *)
  tmp_write : string -> option exn;
  (** closing the file when the [with] block is left *)
  tmp_close : option exn;
  (** the two readings of [time.perf_counter()] *)
  clock_before : Q;
  clock_after : Q;
  (** [int(os.getenv("ENGINEER_TIMEOUT", "30"))] *)
  timeout_setting : exn + Z;
  (** [subprocess.run(["python", temp_file], ..., timeout=...)], from the
      files that exist, the path, the text of the file and the timeout:
      what the call answers and the files that exist afterwards *)
  spawn : list string -> string -> string -> Z
          -> (exn + completed) * list string;
  (** [os.unlink(temp_file)] *)
  unlink : string -> option exn
}.

(** What the [try] statement reads and writes: the [result] dictionary,
    the variable [temp_file] and the files that exist. *)
Record frame := {
  res : result;
  temp_file : option string;
  files : list string
}.

Definition set_res (f : result -> result) (fr : frame) : frame :=
  {| res := f (res fr); temp_file := temp_file fr; files := files fr |}.

Definition set_temp_file (p : string) (fr : frame) : frame :=
  {| res := res fr; temp_file := Some p; files := files fr |}.

Definition set_files (fs : list string) (fr : frame) : frame :=
  {| res := res fr; temp_file := temp_file fr; files := fs |}.

Definition with_success (r : result) : result :=
  {| success := true; output := output r; error := error r;
     issues := issues r; execution_time := execution_time r |}.

Definition with_output (s : string) (r : result) : result :=
  {| success := success r; output := Some s; error := error r;
     issues := issues r; execution_time := execution_time r |}.

Definition with_error (s : string) (r : result) : result :=
  {| success := success r; output := output r; error := Some s;
     issues := issues r; execution_time := execution_time r |}.

Definition with_issue (s : string) (r : result) : result :=
  {| success := success r; output := output r; error := error r;
     issues := issues r ++ [s]; execution_time := execution_time r |}.

Definition with_execution_time (t : Q) (r : result) : result :=
  {| success := success r; output := output r; error := error r;
     issues := issues r; execution_time := Some t |}.

(** Statements that may raise: a state monad over [frame] with
    exceptions. *)
Definition stmt (A : Type) : Type := frame -> (exn + A) * frame.

Definition ret {A} (a : A) : stmt A := fun fr => (inr a, fr).

Definition raise {A} (e : exn) : stmt A := fun fr => (inl e, fr).

Definition bind {A B} (m : stmt A) (k : A -> stmt B) : stmt B :=
  fun fr =>
    match m fr with
    | (inr a, fr') => k a fr'
    | (inl e, fr') => (inl e, fr')
    end.

Notation "x <- m ;; k" := (bind m (fun x => k))
  (at level 61, m at next level, right associativity).
Notation "m ;; k" := (bind m (fun _ => k))
  (at level 61, right associativity).

Definition update (f : frame -> frame) : stmt unit :=
  fun fr => (inr tt, f fr).

Definition get {A} (f : frame -> A) : stmt A := fun fr => (inr (f fr), fr).

Definition lift {A} (x : exn + A) : stmt A := fun fr => (x, fr).

Definition may_raise (x : option exn) : stmt unit :=
  match x with
  | Some e => raise e
  | None => ret tt
  end.

(** [with ... as f: body]: the file is closed when the block is left,
    also by an exception; an exception of the closing replaces the one
    of the body. *)
Definition with_file {A} (closing : stmt unit) (body : stmt A) : stmt A :=
  fun fr =>
    match body fr with
    | (inr a, fr') =>
        match closing fr' with
        | (inr _, fr'') => (inr a, fr'')
        | (inl e, fr'') => (inl e, fr'')
        end
    | (inl e, fr') =>
        match closing fr' with
        | (inr _, fr'') => (inl e, fr'')
        | (inl e', fr'') => (inl e', fr'')
        end
    end.

Definition exists_path (p : string) (fs : list string) : bool :=
  existsb (String.eqb p) fs.

Definition remove_path (p : string) (fs : list string) : list string :=
  filter (fun q => negb (String.eqb p q)) fs.

(** The body of the [try] statement. *)
Definition try_body (w : world) (code : string) : stmt unit :=
  path <- lift (tmp_create w) ;;
  update (fun fr => set_files (path :: files fr) fr) ;;
  with_file (may_raise (tmp_close w))
    (may_raise (tmp_write w code) ;;
     update (set_temp_file path)) ;;
  let start := clock_before w in
  timeout <- lift (timeout_setting w) ;;
  fs <- get files ;;
  let '(answer, fs') := spawn w fs path code timeout in
  update (set_files fs') ;;
  process <- lift answer ;;
  let elapsed := (clock_after w - start)%Q in
  update (set_res (with_execution_time elapsed)) ;;
  if (returncode process =? 0)%Z then
    update (set_res with_success) ;;
    update (set_res (with_output (stdout process)))
  else
    update (set_res (with_error (stderr process))) ;;
    update (set_res (with_issue "Code execution failed")).

(** The two [except] clauses. *)
Definition handler (e : exn) : stmt unit :=
  match e with
  | TimeoutExpired =>
      update (set_res (with_error "Code execution timed out")) ;;
      update (set_res (with_issue "TimeoutExpired"))
  | Raised class_name message =>
      update (set_res (with_error message)) ;;
      update (set_res (with_issue ("Unexpected error: " ++ class_name)))
  end.

(** The [finally] clause; a failure of [os.unlink] is swallowed. *)
Definition cleanup (w : world) (fr : frame) : frame :=
  match temp_file fr with
  | Some p =>
      if truthy (Some p) && exists_path p (files fr) then
        match unlink w p with
        | None => set_files (remove_path p (files fr)) fr
        | Some _ => fr
        end
      else fr
  | None => fr
  end.

Definition try_except_finally (w : world) (code : string) (fr : frame)
  : frame :=
  match try_body w code fr with
  | (inr _, fr') => cleanup w fr'
  | (inl e, fr') => cleanup w (snd (handler e fr'))
  end.

Definition fresh_result : result :=
  {| success := false; output := None; error := None;
     issues := []; execution_time := None |}.

(** The state of an [Engineer] and of the machine around it. *)
Record engineer := {
  test_results : list result;
  file_system : list string
}.

Definition test_solution (w : world) (self : engineer) (p : proposal)
  : result * engineer :=
  let result := fresh_result in
  let code := extract_code (solution p) in
  if negb (truthy code) then
    let result := with_error "No executable code found in solution" result in
    let result := with_issue "Solution must include Python code" result in
    (result, self)
  else
    let code := match code with Some c => c | None => EmptyString end in
    let code := add_main_shim code (goal p) in
    let fr := try_except_finally w code
                {| res := result; temp_file := None;
                   files := file_system self |} in
    (res fr,
     {| test_results := test_results self ++ [res fr];
        file_system := files fr |}).

(** *** [validate_output] *)

Record validation := {
  meets_goal : bool;
  confidence : Q;
  validation_notes : list string
}.

(** [xs[:k]] *)
Definition slice_to {A} (k : Z) (xs : list A) : list A :=
  if (k <? 0)%Z then firstn (List.length xs - Z.to_nat (- k)) xs
  else firstn (Z.to_nat k) xs.

Definition list_eqb (xs ys : list Z) : bool :=
  if list_eq_dec Z.eq_dec xs ys then true else false.

Definition mem (x : Z) (xs : list Z) : bool := existsb (Z.eqb x) xs.

Definition verdict (m : bool) (c : Q) (note : list string) : validation :=
  {| meets_goal := m; confidence := c; validation_notes := note |}.

Definition extract_ints (output : string) : list Z :=
  map int_of_token (findall re_int output).

(** [target_n]: the first number written in the goal, when there is
    one. *)
Definition parse_target (goal_lower : string) : option Z :=
  match findall re_digits goal_lower with
  | tok :: _ => Some (int_of_token tok)
  | [] => None
  end.

(** Truth value of an optional integer: [None] and [0] are false. *)
Definition nonzero (o : option Z) : bool :=
  match o with
  | Some n => negb (n =? 0)%Z
  | None => false
  end.

Definition first_primes : list Z := [2; 3; 5; 7; 11; 13; 17; 19].

Definition validate_output (output goal : string) : validation :=
  if String.eqb output EmptyString || String.eqb (strip output) EmptyString
  then verdict false 0.0%Q ["No output produced"]
  else
    let goal_lower := lower goal in
    if contains "prime" goal_lower then
      let numbers := extract_ints output in
      match numbers with
      | [] => verdict false 0.0%Q ["No numbers detected in output"]
      | _ =>
          let target_n := parse_target goal_lower in
          if contains "first" goal_lower && nonzero target_n then
            let n := match target_n with Some n => n | None => 0%Z end in
            let expected := _first_n_primes n in
            let candidate := slice_to n numbers in
            if list_eqb candidate expected then
              verdict true 0.98%Q
                ["Output matches first " ++ str_of_int n ++ " primes exactly"]
            else
              verdict false 0.2%Q
                ["First " ++ str_of_int n
                 ++ " numbers do not match expected prime sequence"]
          else
            let len := Z.of_nat (List.length numbers) in
            if forallb (fun p => mem p (slice_to (Z.max 10 len) numbers))
                 (slice_to 5 first_primes)
            then verdict true 0.8%Q
                   ["Output contains several correct small primes"]
            else verdict false 0.3%Q
                   ["Numbers found but may not all be primes"]
      end
    else if contains "fibonacci" goal_lower then
      let numbers := extract_ints output in
      if (5 <=? Z.of_nat (List.length numbers))%Z then
        let fib5a := [0; 1; 1; 2; 3]%Z in
        let fib5b := [1; 1; 2; 3; 5]%Z in
        if list_eqb (slice_to 5 numbers) fib5a
           || list_eqb (slice_to 5 numbers) fib5b
        then verdict true 0.9%Q ["Output begins with a valid Fibonacci prefix"]
        else verdict false 0.4%Q
               ["Numbers present but Fibonacci pattern unclear"]
      else verdict false 0.0%Q
             ["Too few numbers found for Fibonacci validation"]
    else
      if (10 <? Z.of_nat (String.length (strip output)))%Z then
        verdict true 0.5%Q ["Produced nontrivial output"]
      else verdict false 0.0%Q [].

(** *** [generate_test_cases] *)

Record test_case := {
  input : Z;
  expected : string
}.

Definition generate_test_cases (goal : string) : list test_case :=
  let gl := lower goal in
  if contains "prime" gl then
    [ {| input := 1; expected := "[] or [2] depending on definition" |};
      {| input := 10; expected := "[2,3,5,7]" |};
      {| input := 100; expected := "ends with 541" |} ]
  else if contains "fibonacci" gl then
    [ {| input := 1; expected := "[0] or [1]" |};
      {| input := 5; expected := "[0,1,1,2,3]" |};
      {| input := 10; expected := "ends with 34 or 55" |} ]
  else [].

(** ** The Researcher (researcher.py) *)

(** [s in seen], for a set of texts kept as the list of its elements. *)
Definition in_set (s : string) (seen : list string) : bool :=
  existsb (String.eqb s) seen.

(** The loop [for s in strategies: if s not in seen: uniq.append(s);
    seen.add(s)], from the values of [uniq] and [seen] before it; the
    result is [uniq]. *)
Fixpoint keep_unseen (items uniq seen : list string) : list string :=
  match items with
  | [] => uniq
  | s :: rest =>
      if in_set s seen then keep_unseen rest uniq seen
      else keep_unseen rest (uniq ++ [s]) (s :: seen)
  end.

Definition _compose_strategies (strategies : list string) : list string :=
  match strategies with
  | [] => []
  | _ =>
      let uniq := keep_unseen strategies [] [] in
      let k := Z.min (Z.of_nat (List.length uniq)) 3 in
      slice_to k uniq
  end.

Definition _mutate_hints (goal : string) : list string :=
  let gl := lower goal in
  let hints :=
    if contains "prime" gl then
      ["Prefer Sieve of Eratosthenes for N up to a few thousand";
       "Print the final list with print(primes) and nothing else";
       "Avoid off-by-one errors; ensure exactly N primes"]
    else ["Return only the final answer in machine-readable form"] in
  slice_to 3 (keep_unseen hints [] []).

(** [sep.join(ls)] *)
Definition join (sep : string) (ls : list string) : string :=
  String.concat sep ls.

Definition contract : string :=
  "You are writing a short Python program that solves the user's goal."
  ++ nl
  ++ "REQUIREMENTS:" ++ nl
  ++ "1) Use ONLY the Python standard library." ++ nl
  ++ "2) Return ONLY a Python fenced code block (```python ... ```). Do not include any prose."
  ++ nl
  ++ "3) When run, the program must print ONLY the final answer in a single line or a Python list via print(...)."
  ++ nl
  ++ "4) No input() calls. No external packages. No network access." ++ nl.

Definition _build_prompt (goal : string) (strategies : list string)
  : string :=
  let composed := _compose_strategies strategies in
  let mutations := _mutate_hints goal in
  let strategy_note :=
    match composed with
    | [] => EmptyString
    | _ => "Known helpful strategies: " ++ join ", " composed ++ "." ++ nl
    end in
  let mutate_note :=
    match mutations with
    | [] => EmptyString
    | _ => "Hints: " ++ join " | " mutations ++ nl
    end in
  contract ++ strategy_note ++ mutate_note
  ++ nl ++ "GOAL:" ++ nl
  ++ strip goal.

(** The two collaborators of a [Researcher], by their answers: the
    oracle [llm.query(prompt, system, max_tokens)] and the memory
    [cognition_base.get_relevant_strategies(goal, max_items)]. *)
Record collaborators := {
  query : string -> string -> Z -> string;
  get_relevant_strategies : string -> Z -> list string
}.

Record researcher := {
  proposals : list proposal
}.

Definition propose_solution (c : collaborators) (self : researcher)
  (goal : string) (previous_feedback : option string)
  : proposal * researcher :=
  let strategies := get_relevant_strategies c goal 5 in
  let prompt := _build_prompt goal strategies in
  let '(system, prompt) :=
    if truthy previous_feedback then
      ("Improve the prior attempt using the feedback. "
       ++ "Maintain the output contract and standard-library-only rule.",
       strip (match previous_feedback with
              | Some f => f
              | None => EmptyString
              end) ++ nl ++ nl ++ prompt)
    else
      ("Follow the output contract strictly. "
       ++ "Return only a Python code block that can be run as-is.",
       prompt) in
  let code_text := query c prompt system 800 in
  let proposal :=
    {| goal := goal;
       solution := code_text;
       strategies_used := strategies;
       notes := match previous_feedback with
                | Some f => f
                | None => EmptyString
                end |} in
  (proposal, {| proposals := proposals self ++ [proposal] |}).

(** ** Vocabulary of the properties *)

(** The code that is written to the temporary file: the extracted code,
    when there is some, with its entry point. *)
Definition final_code (p : proposal) : option string :=
  match extract_code (solution p) with
  | Some (String c s) => Some (add_main_shim (String c s) (goal p))
  | _ => None
  end.

(** The result returned when no code is found. *)
Definition no_code_result : result :=
  {| success := false; output := None;
     error := Some "No executable code found in solution";
     issues := ["Solution must include Python code"];
     execution_time := None |}.

Definition start_frame (fs : list string) : frame :=
  {| res := fresh_result; temp_file := None; files := fs |}.

(** Sample inputs. *)
Definition sample_proposal : proposal :=
  {| goal := "first 10 primes";
     solution := "def find(n):" ++ nl ++ "    return 1";
     strategies_used := [];
     notes := EmptyString |}.

Definition sample_engineer : engineer :=
  {| test_results := []; file_system := ["/etc/hosts"] |}.

(** A machine on which every step before and after the child process
    works; the child process answers [answer] and touches no file. *)
Definition calm_world (answer : exn + completed) : world :=
  {| tmp_create := inr "/tmp/tmp0.py";
     tmp_write := fun _ => None;
     tmp_close := None;
     clock_before := 1;
     clock_after := 3;
     timeout_setting := inr 30%Z;
     spawn := fun fs _ _ _ => (answer, fs);
     unlink := fun _ => None |}.

Definition exit_with (rc : Z) : exn + completed :=
  inr {| returncode := rc; stdout := "out"; stderr := "err" |}.

(** The same machine, but [os.unlink] fails. *)
Definition sticky_world : world :=
  {| tmp_create := inr "/tmp/tmp0.py";
     tmp_write := fun _ => None;
     tmp_close := None;
     clock_before := 1;
     clock_after := 3;
     timeout_setting := inr 30%Z;
     spawn := fun fs _ _ _ => (exit_with 0, fs);
     unlink := fun _ => Some (Raised "PermissionError" "denied") |}.

(** The same machine, but [f.write] fails. *)
Definition full_disk_world : world :=
  {| tmp_create := inr "/tmp/tmp0.py";
     tmp_write := fun _ => Some (Raised "OSError" "No space left on device");
     tmp_close := None;
     clock_before := 1;
     clock_after := 3;
     timeout_setting := inr 30%Z;
     spawn := fun fs _ _ _ => (exit_with 0, fs);
     unlink := fun _ => None |}.

Fixpoint all_chars (p : ascii -> bool) (s : string) : bool :=
  match s with
  | EmptyString => true
  | String c s' => p c && all_chars p s'
  end.

(** Empty or made of whitespace only. *)
Definition blank (s : string) : bool := all_chars isspace s.

Definition fib5a : list Z := [0; 1; 1; 2; 3]%Z.
Definition fib5b : list Z := [1; 1; 2; 3; 5]%Z.

(** No fence in the text. *)
Definition unfenced (s : string) : bool := negb (contains fence s).

(** No line starts, once trimmed, with one of the keywords that open the
    capture or keep it going. *)
Definition keyword_free (s : string) : bool :=
  forallb (fun line =>
             negb (starts_with_any (strip line) start_keywords)
             && negb (starts_with_any (strip line) statement_prefixes))
          (split_lines s).

(** The first line opens the capture and no line ends it. *)
Definition keyword_led (s : string) : bool :=
  starts_with_any (strip (hd EmptyString (split_lines s))) start_keywords
  && forallb (fun line => negb (reenters_prose (strip line))) (split_lines s).

(** The function that the added entry point calls: the first one whose
    name has a hint, else the last one. *)
Definition selected_function (functions : list string) : string :=
  match List.find hinted functions with
  | Some f => f
  | None => List.last functions EmptyString
  end.

(** No backtick in the text. *)
Definition tick_free (s : string) : bool :=
  all_chars (fun c => negb (Ascii.eqb c "`")) s.

(** [c] occurs in [s] as it is. *)
Definition part_of (c s : string) : Prop := exists a b, s = a ++ c ++ b.

(** The first occurrences of the elements of a list, in their order. *)
Fixpoint first_occurrences (l : list string) : list string :=
  match l with
  | [] => []
  | x :: rest =>
      x :: filter (fun y => negb (String.eqb x y)) (first_occurrences rest)
  end.

(** An oracle that answers as the prompt asks, and a memory with one
    strategy. *)
Definition obedient : collaborators :=
  {| query := fun _ _ _ =>
       "Sure." ++ "```python" ++ nl ++ "print(2)" ++ "```" ++ EmptyString;
     get_relevant_strategies := fun _ _ => ["sieve"] |}.

Definition new_researcher : researcher := {| proposals := [] |}.

(** The value of a run of decimal digits, after the value [acc] of the
    digits before it. *)
Fixpoint uint_value (acc : Z) (d : Decimal.uint) : Z :=
  match d with
  | Decimal.Nil => acc
  | Decimal.D0 l => uint_value (10 * acc + 0) l
  | Decimal.D1 l => uint_value (10 * acc + 1) l
  | Decimal.D2 l => uint_value (10 * acc + 2) l
  | Decimal.D3 l => uint_value (10 * acc + 3) l
  | Decimal.D4 l => uint_value (10 * acc + 4) l
  | Decimal.D5 l => uint_value (10 * acc + 5) l
  | Decimal.D6 l => uint_value (10 * acc + 6) l
  | Decimal.D7 l => uint_value (10 * acc + 7) l
  | Decimal.D8 l => uint_value (10 * acc + 8) l
  | Decimal.D9 l => uint_value (10 * acc + 9) l
  end.

(** What [print(l)] writes for a list [l] of integers. *)
Definition printed_list (l : list Z) : string :=
  "[" ++ join ", " (map str_of_int l) ++ "]" ++ nl.

(** Empty, or starting with a character that is not a digit. *)
Definition ends_number (rest : string) : bool :=
  match rest with
  | EmptyString => true
  | String c _ => negb (isdigit c)
  end.

(** A pattern whose matches are not empty. *)
Definition shrinks (m : matcher) : Prop :=
  forall s g rest, m s = Some (g, rest) ->
                   (String.length rest < String.length s)%nat.

(** * Proofs *)

(** ** Loops *)

Close Scope string_scope.

Section Rounds.
Context {S R : Type}.
Variable body : S -> S + R.

Lemma rounds_add (a b : nat) (s : S) :
  Loop.rounds body (a + b) s
  = Loop.andthen (Loop.rounds body a s) (Loop.rounds body b).
Proof.
  revert s. induction a as [|a IH]; intros s; [reflexivity|].
  cbn. destruct (body s) as [s'|r]; [apply IH | reflexivity].
Qed.

Lemma rounds_one (s : S) : Loop.rounds body 1 s = body s.
Proof. cbn. destruct (body s); reflexivity. Qed.

Lemma while_rounds (p : positive) (s : S) :
  Loop.while body p s = Loop.rounds body (Pos.to_nat p) s.
Proof.
  revert s. induction p as [q IH|q IH|]; intros s; cbn [Loop.while].
  - rewrite Pos2Nat.inj_xI.
    change (Datatypes.S (2 * Pos.to_nat q)) with (1 + 2 * Pos.to_nat q)%nat.
    rewrite rounds_add, rounds_one.
    destruct (body s) as [s1|r]; [|reflexivity]. cbn [Loop.andthen].
    replace (2 * Pos.to_nat q)%nat with (Pos.to_nat q + Pos.to_nat q)%nat by lia.
    rewrite rounds_add, IH.
    destruct (Loop.rounds body (Pos.to_nat q) s1); [apply IH | reflexivity].
  - rewrite Pos2Nat.inj_xO.
    replace (2 * Pos.to_nat q)%nat with (Pos.to_nat q + Pos.to_nat q)%nat by lia.
    rewrite rounds_add, IH.
    destruct (Loop.rounds body (Pos.to_nat q) s); [apply IH | reflexivity].
  - symmetry. apply rounds_one.
Qed.

(** A loop that returns within the rounds it is given returns the same
    with more rounds. *)
Lemma rounds_more (a b : nat) (s : S) (r : R) :
  Loop.rounds body a s = inr r -> (a <= b)%nat -> Loop.rounds body b s = inr r.
Proof.
  intros H L. replace b with (a + (b - a))%nat by lia.
  rewrite rounds_add, H. reflexivity.
Qed.
End Rounds.

Lemma prime_by_trial (f n : Z) :
  2 <= n -> 2 <= f -> n < f * f -> no_divisor_below f n -> Z.prime n.
Proof.
  intros Hn Hf Hff Hno. split; [lia|].
  intros d Hd [q Hq].
  destruct (Z_lt_le_dec d f) as [L|L].
  - apply (Hno d); [lia | exists q; exact Hq].
  - assert (Hq1 : 2 <= q) by nia.
    assert (Hq2 : q < f) by nia.
    apply (Hno q); [lia | exists d; lia].
Qed.

Lemma divide_mod_0 (d n k : Z) : 0 < k -> (d | n) -> d mod k = 0 -> n mod k = 0.
Proof.
  intros Hk [q Hq] Hd. subst n.
  apply Z.mod_divide; [lia|].
  apply Z.mod_divide in Hd; [|lia].
  apply Z.divide_mul_r. exact Hd.
Qed.

Section Trial.
Variable n : Z.
Hypothesis big : 5 <= n.
Hypothesis odd : n mod 2 <> 0.
Hypothesis not3 : n mod 3 <> 0.

Lemma wheel_next (f step : Z) :
  wheel f step -> no_divisor_below f n -> n mod f <> 0 ->
  wheel (f + step) (6 - step) /\ no_divisor_below (f + step) n.
Proof.
  intros [Hf Hw] Hno Hnf. split.
  - split; [lia|].
    destruct Hw as [[-> Hm] | [-> Hm]]; [right | left]; split; try lia.
    + rewrite Z.add_mod, Hm by lia. reflexivity.
    + rewrite Z.add_mod, Hm by lia. reflexivity.
  - intros d Hd Hdiv.
    destruct (Z_lt_le_dec d f) as [L|L]; [apply (Hno d); [lia | exact Hdiv]|].
    destruct (Z.eq_dec d f) as [->|Hne].
    { apply Hnf. apply Z.mod_divide; [lia | exact Hdiv]. }
    assert (C : d mod 2 = 0 \/ d mod 3 = 0).
    { destruct Hw as [[-> Hm] | [-> Hm]].
      - left. assert (d = f + 1) by lia. subst d.
        rewrite (Z.div_mod f 6) by lia. rewrite Hm.
        replace (6 * (f / 6) + 5 + 1) with ((3 * (f / 6) + 3) * 2) by lia.
        apply Z.mod_mul. lia.
      - assert (d = f + 1 \/ d = f + 2 \/ d = f + 3) as [-> | [-> | ->]] by lia.
        + left. rewrite (Z.div_mod f 6) by lia. rewrite Hm.
          replace (6 * (f / 6) + 1 + 1) with ((3 * (f / 6) + 1) * 2) by lia.
          apply Z.mod_mul. lia.
        + right. rewrite (Z.div_mod f 6) by lia. rewrite Hm.
          replace (6 * (f / 6) + 1 + 2) with ((2 * (f / 6) + 1) * 3) by lia.
          apply Z.mod_mul. lia.
        + left. rewrite (Z.div_mod f 6) by lia. rewrite Hm.
          replace (6 * (f / 6) + 1 + 3) with ((3 * (f / 6) + 2) * 2) by lia.
          apply Z.mod_mul. lia. }
    destruct C as [C|C].
    + apply odd. eapply divide_mod_0; eauto. lia.
    + apply not3. eapply divide_mod_0; eauto. lia.
Qed.

Lemma trial_rounds (k : nat) (f step : Z) :
  wheel f step -> no_divisor_below f n ->
  n < Z.of_nat k + f -> (1 <= k)%nat ->
  exists b, Loop.rounds (is_prime_body n) k (f, step) = inr b
            /\ (b = true <-> Z.prime n).
Proof.
  revert f step. induction k as [|k IH]; intros f step Hw Hno Hk Hk1; [lia|].
  cbn [Loop.rounds is_prime_body].
  destruct (f * f <=? n) eqn:Hsq.
  - apply Z.leb_le in Hsq.
    destruct (n mod f =? 0) eqn:Hm.
    + apply Z.eqb_eq in Hm. exists false. split; [reflexivity|].
      split; [discriminate|]. intros [_ Hp]. exfalso.
      destruct Hw as [Hf _].
      apply (Hp f); [nia|]. apply Z.mod_divide; [lia | exact Hm].
    + apply Z.eqb_neq in Hm.
      destruct (wheel_next f step Hw Hno Hm) as [Hw' Hno'].
      destruct Hw as [Hf Hs].
      apply IH; try assumption.
      * destruct Hs as [[-> _]|[-> _]]; lia.
      * nia.
  - apply Z.leb_gt in Hsq. exists true. split; [reflexivity|].
    split; [intros _|reflexivity].
    destruct Hw as [Hf _].
    apply (prime_by_trial f n); try lia. exact Hno.
Qed.
End Trial.

Lemma _is_prime_spec (n : Z) : _is_prime n = true <-> Z.prime n.
Proof.
  unfold _is_prime.
  destruct (n <? 2) eqn:H2.
  { apply Z.ltb_lt in H2. split; [discriminate|]. intros [H _]. lia. }
  apply Z.ltb_ge in H2.
  destruct ((n =? 2) || (n =? 3)) eqn:H23.
  { split; [intros _|reflexivity].
    apply orb_prop in H23 as [H|H]; apply Z.eqb_eq in H; subst n.
    - exact Z.prime_2.
    - exact Z.prime_3. }
  apply orb_false_elim in H23 as [E2 E3].
  apply Z.eqb_neq in E2, E3.
  destruct ((n mod 2 =? 0) || (n mod 3 =? 0)) eqn:Hm.
  { split; [discriminate|]. intros [_ Hp]. exfalso.
    apply orb_prop in Hm as [H|H]; apply Z.eqb_eq in H.
    - apply (Hp 2); [lia|]. apply Z.mod_divide; [lia | exact H].
    - apply (Hp 3); [lia|]. apply Z.mod_divide; [lia | exact H]. }
  apply orb_false_elim in Hm as [M2 M3].
  apply Z.eqb_neq in M2, M3.
  assert (H5 : 5 <= n).
  { destruct (Z.eq_dec n 4) as [->|]; [exfalso; apply M2; reflexivity | lia]. }
  rewrite while_rounds.
  destruct (trial_rounds n H5 M2 M3 (Pos.to_nat (Z.to_pos n)) 5 2)
    as (b & Hb & Hspec).
  - split; [lia|]. left. split; reflexivity.
  - intros d Hd Hdiv.
    assert (d = 2 \/ d = 3 \/ d = 4) as [-> | [-> | ->]] by lia.
    + apply M2, Z.mod_divide; [lia | exact Hdiv].
    + apply M3, Z.mod_divide; [lia | exact Hdiv].
    + apply M2. apply (divide_mod_0 4 n 2); [lia | exact Hdiv | reflexivity].
  - rewrite positive_nat_Z, Z2Pos.id by lia. lia.
  - lia.
  - rewrite Hb. exact Hspec.
Qed.

(** ** The sequence of the primes *)


Lemma last_cons {A} (a d : A) (l : list A) : last (a :: l) d = last l a.
Proof.
  revert a d. induction l as [|b l IH]; intros a d; [reflexivity|].
  change (last (a :: b :: l) d) with (last (b :: l) d).
  rewrite (IH b d), (IH b a). reflexivity.
Qed.

Lemma consecutive_snoc (lo x : Z) (l : list Z) :
  consecutive_primes lo l -> Z.prime x -> last l lo < x ->
  (forall q, last l lo < q < x -> ~ Z.prime q) ->
  consecutive_primes lo (l ++ [x]).
Proof.
  intros H. induction H as [lo | lo p rest Hlt Hp Hgap Hrest IH];
    intros Hx Hlast Hnone.
  - cbn in *. constructor; auto. constructor.
  - cbn [app]. rewrite last_cons in Hlast, Hnone.
    constructor; auto.
Qed.

Lemma consecutive_unique (lo : Z) (l l' : list Z) :
  consecutive_primes lo l -> consecutive_primes lo l' ->
  List.length l = List.length l' -> l = l'.
Proof.
  intros H. revert l'.
  induction H as [lo | lo p rest Hlt Hp Hgap Hrest IH]; intros l' H' Hlen.
  - destruct l'; [reflexivity | discriminate Hlen].
  - destruct H' as [lo | lo p' rest' Hlt' Hp' Hgap' Hrest']; [discriminate Hlen|].
    assert (p = p').
    { destruct (Z.lt_trichotomy p p') as [L | [E | L]]; [|exact E|].
      - exfalso. apply (Hgap' p); [lia | exact Hp].
      - exfalso. apply (Hgap p'); [lia | exact Hp']. }
    subst p'. f_equal. apply IH; [exact Hrest'|]. cbn in Hlen. lia.
Qed.

Lemma first_primes_unique (n : nat) (l l' : list Z) :
  first_primes_of n l -> first_primes_of n l' -> l = l'.
Proof.
  intros [Hl Hc] [Hl' Hc']. apply (consecutive_unique 1); auto. congruence.
Qed.

Lemma primes_below_succ (k : nat) :
  primes_below (S k) =
  if _is_prime (2 + Z.of_nat k) then primes_below k ++ [2 + Z.of_nat k]
  else primes_below k.
Proof. reflexivity. Qed.

Lemma last_snoc {A} (l : list A) (x d : A) : last (l ++ [x]) d = x.
Proof. apply last_last. Qed.

Lemma primes_below_consecutive (k : nat) :
  consecutive_primes 1 (primes_below k)
  /\ last (primes_below k) 1 < 2 + Z.of_nat k
  /\ (forall q, last (primes_below k) 1 < q < 2 + Z.of_nat k -> ~ Z.prime q).
Proof.
  induction k as [|k (Hc & Hl & Hg)].
  - cbn. split; [constructor | split; [lia | intros q Hq; lia]].
  - rewrite primes_below_succ.
    destruct (_is_prime (2 + Z.of_nat k)) eqn:E.
    + apply _is_prime_spec in E. split; [|split].
      * apply consecutive_snoc; auto.
      * rewrite last_snoc. lia.
      * rewrite last_snoc. intros q Hq. lia.
    + split; [exact Hc | split; [lia|]].
      intros q Hq. destruct (Z.eq_dec q (2 + Z.of_nat k)) as [->|Hne].
      * rewrite <- _is_prime_spec. congruence.
      * apply Hg. lia.
Qed.

Lemma primes_below_In (k : nat) (p : Z) :
  In p (primes_below k) <-> Z.prime p /\ p < 2 + Z.of_nat k.
Proof.
  induction k as [|k IH].
  - cbn. split; [tauto|]. intros [[H _] L]. lia.
  - rewrite primes_below_succ.
    destruct (_is_prime (2 + Z.of_nat k)) eqn:E.
    + rewrite in_app_iff, IH. cbn [In]. apply _is_prime_spec in E.
      split.
      * intros [[Hp L] | [<- | []]]; split; auto; lia.
      * intros [Hp L].
        destruct (Z.eq_dec p (2 + Z.of_nat k)) as [->|Hne]; [tauto|].
        left. split; [exact Hp | lia].
    + rewrite IH. split; intros [Hp L]; split; auto; try lia.
      destruct (Z.eq_dec p (2 + Z.of_nat k)) as [->|Hne]; [|lia].
      apply _is_prime_spec in Hp. congruence.
Qed.

Lemma primes_below_length_succ (k : nat) :
  List.length (primes_below (S k)) =
  (List.length (primes_below k)
   + if _is_prime (2 + Z.of_nat k) then 1 else 0)%nat.
Proof.
  rewrite primes_below_succ. destruct (_is_prime _); [|lia].
  rewrite length_app. reflexivity.
Qed.

Lemma primes_below_length_mono (k j : nat) :
  (List.length (primes_below k) <= List.length (primes_below (k + j)))%nat.
Proof.
  induction j as [|j IH]; [rewrite Nat.add_0_r; lia|].
  rewrite Nat.add_succ_r, primes_below_length_succ. lia.
Qed.

(** The next prime: the first round that lengthens the list. *)
Lemma primes_below_next (j k : nat) :
  (List.length (primes_below k) < List.length (primes_below (k + j)))%nat ->
  exists i, (i < j)%nat /\ primes_below (k + i) = primes_below k
            /\ _is_prime (2 + Z.of_nat (k + i)) = true.
Proof.
  revert k. induction j as [|j IH]; intros k H.
  - rewrite Nat.add_0_r in H. lia.
  - destruct (_is_prime (2 + Z.of_nat k)) eqn:E.
    + exists O. rewrite Nat.add_0_r. split; [lia | split; [reflexivity | exact E]].
    + assert (Hs : primes_below (S k) = primes_below k)
        by (rewrite primes_below_succ, E; reflexivity).
      destruct (IH (S k)) as (i & Hi & Hp & Hq).
      * rewrite Hs. replace (S k + j)%nat with (k + S j)%nat by lia. exact H.
      * exists (S i). replace (k + S i)%nat with (S k + i)%nat by lia.
        split; [lia | split; [congruence | exact Hq]].
Qed.

Lemma product_snoc (l : list Z) (x : Z) : product (l ++ [x]) = product l * x.
Proof.
  unfold product. induction l as [|a l IH]; cbn [app fold_right]; [lia|].
  rewrite IH. lia.
Qed.

Lemma product_divide (l : list Z) (p : Z) : In p l -> (p | product l).
Proof.
  unfold product. induction l as [|a l IH]; [contradiction|].
  intros [-> | H]; cbn.
  - apply Z.divide_mul_l, Z.divide_refl.
  - apply Z.divide_mul_r, IH, H.
Qed.

Lemma product_pos (l : list Z) : (forall p, In p l -> 0 < p) -> 0 < product l.
Proof.
  unfold product. induction l as [|a l IH]; intros H; cbn; [lia|].
  assert (0 < a) by (apply H; left; reflexivity).
  assert (0 < fold_right Z.mul 1 l) by (apply IH; intros p Hp; apply H; right; exact Hp).
  nia.
Qed.

Lemma primes_below_product_pos (k : nat) : 0 < product (primes_below k).
Proof.
  apply product_pos. intros p Hp. apply primes_below_In in Hp as [[H _] _]. lia.
Qed.

Lemma prime_divisor_bounded (m : nat) (N : Z) :
  2 <= N <= Z.of_nat m -> exists p, Z.prime p /\ (p | N).
Proof.
  revert N. induction m as [|m IH]; intros N HN; [lia|].
  destruct (prime_dec N) as [P | NP].
  - exists N. split; [apply prime_alt, P | apply Z.divide_refl].
  - destruct (not_prime_divide N) as (d & Hd & Hdiv); [lia | exact NP |].
    destruct (IH d) as (p & Hp & Hpd); [lia|].
    exists p. split; [exact Hp | eapply Z.divide_trans; eauto].
Qed.

Lemma prime_divisor (N : Z) : 2 <= N -> exists p, Z.prime p /\ (p | N).
Proof.
  intros H. apply (prime_divisor_bounded (Z.to_nat N)). lia.
Qed.

(** Euclid: a prime not among those found so far, and not far. *)
Lemma euclid (k : nat) :
  exists q, Z.prime q
            /\ 2 + Z.of_nat k <= q <= product (primes_below k) + 1.
Proof.
  pose proof (primes_below_product_pos k) as Hpos.
  destruct (prime_divisor (product (primes_below k) + 1)) as (q & Hq & Hdiv);
    [lia|].
  exists q. split; [exact Hq|]. split.
  - destruct (Z_lt_le_dec q (2 + Z.of_nat k)) as [L|L]; [|exact L].
    exfalso.
    assert (Hin : In q (primes_below k)) by (apply primes_below_In; auto).
    apply product_divide in Hin.
    assert (H1 : (q | 1)).
    { replace 1 with (product (primes_below k) + 1 - product (primes_below k)) by lia.
      apply Z.divide_sub_r; assumption. }
    destruct Hq as [Hq _]. apply Z.divide_1_r_nonneg in H1; lia.
  - apply Z.divide_pos_le; [lia | exact Hdiv].
Qed.

Lemma euclid_bound_pos (n : nat) : 1 <= euclid_bound n.
Proof. induction n as [|n IH]; cbn [euclid_bound]; nia. Qed.

Lemma primes_below_reach (n : nat) :
  exists k, List.length (primes_below k) = n
            /\ product (primes_below k) <= euclid_bound n
            /\ 2 + Z.of_nat k <= 2 * euclid_bound n.
Proof.
  induction n as [|n (k & Hlen & Hprod & Hk)].
  - exists O. cbn. lia.
  - destruct (euclid k) as (q & Hq & Hlo & Hhi).
    set (j := S (Z.to_nat (q - (2 + Z.of_nat k)))).
    assert (Hj : Z.of_nat (k + j) = q + 1 - 2) by (unfold j; lia).
    destruct (primes_below_next j k) as (i & Hi & Hsame & Hprime).
    { assert (Hin : In q (primes_below (k + j)))
        by (apply primes_below_In; split; [exact Hq | lia]).
      assert (Hs : primes_below (k + j)
                   = primes_below (S (k + Z.to_nat (q - (2 + Z.of_nat k)))))
        by (unfold j; f_equal; lia).
      rewrite Hs, primes_below_length_succ.
      replace (2 + Z.of_nat (k + Z.to_nat (q - (2 + Z.of_nat k)))) with q by lia.
      apply _is_prime_spec in Hq. rewrite Hq.
      pose proof (primes_below_length_mono k (Z.to_nat (q - (2 + Z.of_nat k)))).
      lia. }
    exists (S (k + i)).
    pose proof (euclid_bound_pos n) as He.
    pose proof (primes_below_product_pos k) as Hpos.
    assert (Hp : 2 + Z.of_nat (k + i) <= q) by (unfold j in Hi; lia).
    rewrite primes_below_succ, Hprime, Hsame.
    rewrite length_app, product_snoc. cbn [List.length euclid_bound].
    split; [lia | split; nia].
Qed.

Lemma euclid_bound_pow (n : nat) :
  2 * euclid_bound n = 2 ^ (2 ^ Z.of_nat n).
Proof.
  induction n as [|n IH]; [reflexivity|].
  cbn [euclid_bound].
  replace (2 * (2 * euclid_bound n * euclid_bound n))
    with ((2 * euclid_bound n) ^ 2) by (rewrite Z.pow_2_r; lia).
  rewrite IH, <- Z.pow_mul_r by (try apply Z.pow_nonneg; lia).
  rewrite Nat2Z.inj_succ, Z.pow_succ_r by lia.
  f_equal. lia.
Qed.

Lemma first_n_primes_rounds (n : Z) (j i : nat) :
  Z.of_nat (List.length (primes_below i)) <= Z.max 0 n ->
  Z.max 0 n <= Z.of_nat (List.length (primes_below (i + j))) ->
  exists i', (i <= i' <= i + j)%nat
             /\ Z.of_nat (List.length (primes_below i')) = Z.max 0 n
             /\ Loop.rounds (first_n_primes_body n) (S (i' - i))
                  (primes_below i, 2 + Z.of_nat i)
                = inr (primes_below i').
Proof.
  revert i. induction j as [|j IH]; intros i Hlo Hhi.
  - rewrite Nat.add_0_r in Hhi. exists i.
    split; [lia | split; [lia|]].
    rewrite Nat.sub_diag. cbn [Loop.rounds first_n_primes_body].
    destruct (Z.of_nat (List.length (primes_below i)) <? n) eqn:E;
      [apply Z.ltb_lt in E; lia | reflexivity].
  - destruct (Z.of_nat (List.length (primes_below i)) <? n) eqn:E.
    + pose proof E as Elt. apply Z.ltb_lt in Elt.
      destruct (IH (S i)) as (i' & Hi' & Hlen & Hrun).
      * rewrite primes_below_length_succ.
        destruct (_is_prime (2 + Z.of_nat i)); lia.
      * replace (S i + j)%nat with (i + S j)%nat by lia. exact Hhi.
      * exists i'. split; [lia | split; [exact Hlen|]].
        replace (S (i' - i)) with (S (S (i' - S i))) by lia.
        cbn [Loop.rounds first_n_primes_body] in Hrun |- *. rewrite E.
        rewrite primes_below_succ in Hrun.
        replace (2 + Z.of_nat i + 1) with (2 + Z.of_nat (S i)) by lia.
        exact Hrun.
    + pose proof E as Ege. apply Z.ltb_ge in Ege. exists i.
      split; [lia | split; [lia|]].
      rewrite Nat.sub_diag. cbn [Loop.rounds first_n_primes_body].
      rewrite E. reflexivity.
Qed.

(** [_first_n_primes n] returns, and returns the primes found in the
    first rounds of its loop, [n] of them. *)
Lemma first_n_primes_run (n : Z) :
  exists k, _first_n_primes n = primes_below k
            /\ List.length (primes_below k) = Z.to_nat n.
Proof.
  destruct (primes_below_reach (Z.to_nat n)) as (k & Hlen & _ & Hk).
  destruct (first_n_primes_rounds n k O) as (i & Hi & Hleni & Hrun).
  - cbn. lia.
  - cbn [Nat.add]. lia.
  - exists i. split; [|lia].
    unfold _first_n_primes. rewrite while_rounds.
    pose proof (rounds_more _ _ (Pos.to_nat (primes_rounds n)) _ _ Hrun)
      as Hmore.
    change (primes_below 0, 2 + Z.of_nat 0) with (@nil Z, 2) in Hmore.
    rewrite Hmore; [reflexivity|].
    unfold primes_rounds.
    rewrite euclid_bound_pow, ZifyInst.of_nat_to_nat_eq in Hk.
    assert (Hpos : 0 < 2 ^ 2 ^ Z.max 0 n)
      by (apply Z.pow_pos_nonneg; [lia | apply Z.pow_nonneg; lia]).
    revert Hk Hpos. generalize (2 ^ 2 ^ Z.max 0 n). intros X Hk Hpos. lia.
Qed.

(** Correctness of the reference sequence. *)
Lemma first_n_primes_correct (n : Z) :
  first_primes_of (Z.to_nat n) (_first_n_primes n).
Proof.
  destruct (first_n_primes_run n) as (k & -> & Hlen).
  split; [exact Hlen | apply primes_below_consecutive].
Qed.

Open Scope string_scope.

(** ** The sandboxed run *)

Lemma truthy_final_code (p : proposal) :
  truthy (extract_code (solution p)) = false <-> final_code p = None.
Proof.
  unfold final_code.
  destruct (extract_code (solution p)) as [[|c s]|]; cbn; split;
    intros H; (reflexivity || discriminate H).
Qed.

(** [test_solution], by the code it runs. *)
Lemma test_solution_eq (w : world) (self : engineer) (p : proposal) :
  test_solution w self p =
  match final_code p with
  | None => (no_code_result, self)
  | Some code =>
      let fr := try_except_finally w code (start_frame (file_system self)) in
      (res fr,
       {| test_results := test_results self ++ [res fr];
          file_system := files fr |})
  end.
Proof.
  unfold test_solution, final_code.
  destruct (extract_code (solution p)) as [[|c s]|]; reflexivity.
Qed.

Lemma cleanup_res (w : world) (fr : frame) : res (cleanup w fr) = res fr.
Proof.
  unfold cleanup.
  destruct (temp_file fr) as [p|]; [|reflexivity].
  destruct (truthy (Some p) && exists_path p (files fr)); [|reflexivity].
  destruct (unlink w p); reflexivity.
Qed.

Lemma exists_path_remove (p : string) (fs : list string) :
  exists_path p (remove_path p fs) = false.
Proof.
  unfold exists_path, remove_path.
  induction fs as [|q fs IH]; [reflexivity|].
  cbn. destruct (String.eqb p q) eqn:E; cbn; [exact IH|].
  rewrite E. exact IH.
Qed.

(** After the [finally] clause a recorded, named file is gone unless its
    removal failed. *)
Lemma cleanup_removes (w : world) (fr : frame) (p : string) :
  temp_file fr = Some p -> p <> EmptyString -> unlink w p = None ->
  exists_path p (files (cleanup w fr)) = false.
Proof.
  intros Ht Hp Hu. unfold cleanup. rewrite Ht.
  destruct p as [|c s]; [congruence|]. cbn [truthy andb].
  destruct (exists_path (String c s) (files fr)) eqn:E; [|exact E].
  rewrite Hu. cbn [files set_files]. apply exists_path_remove.
Qed.

(** The answers of the machine, one after the other. *)
Ltac ask_world w :=
  repeat match goal with
  | |- context [tmp_create w] =>
      destruct (tmp_create w) as [[|? ?]|?]; cbn
  | |- context [tmp_write w ?c] =>
      destruct (tmp_write w c) as [[|? ?]|]; cbn
  | |- context [tmp_close w] =>
      destruct (tmp_close w) as [[|? ?]|]; cbn
  | |- context [timeout_setting w] =>
      destruct (timeout_setting w) as [[|? ?]|?]; cbn
  | |- context [spawn w ?a ?b ?c ?d] =>
      destruct (spawn w a b c d) as [[[|? ?]|[? ? ?]] ?]; cbn
  | |- context [(?rc =? 0)%Z] => destruct (rc =? 0)%Z; cbn
  end.

Ltac open_try :=
  unfold try_body, start_frame, bind, lift, update, get, with_file,
    may_raise, ret, raise; cbn.

Lemma sandbox_result_invariant (w : world) (code : string) (fs : list string)
  (r := res (try_except_finally w code (start_frame fs))) :
  (success r = true -> (exists s, output r = Some s) /\ error r = None)
  /\ (success r = false -> exists e, error r = Some e).
Proof.
  subst r. unfold try_except_finally.
  destruct (try_body w code (start_frame fs)) as [[e|[]] fr'] eqn:E;
    rewrite cleanup_res; revert E; open_try; ask_world w;
    intros E; inversion E; subst; cbn;
    (split; intros H; try discriminate H; repeat split; eauto).
Qed.

(** C1. Every result returned by [test_solution]: when [success] is true,
    [output] is set and [error] is null; when [success] is false, [error]
    is set.  This holds for every proposal and for every answer of the
    machine: no code found, normal exit, nonzero exit, timeout, and any
    other exception raised on the way. *)
Theorem test_solution_result_invariant
  (w : world) (self : engineer) (p : proposal) :
  (success (fst (test_solution w self p)) = true ->
   (exists s, output (fst (test_solution w self p)) = Some s)
   /\ error (fst (test_solution w self p)) = None)
  /\ (success (fst (test_solution w self p)) = false ->
      exists e, error (fst (test_solution w self p)) = Some e).
Proof.
  rewrite test_solution_eq.
  destruct (final_code p) as [code|].
  - apply sandbox_result_invariant.
  - cbn. split; [discriminate | eauto].
Qed.

(** C10. [test_solution] appends the result it returns to [test_results]
    exactly when code was extracted: with no code the failure result is
    returned and [test_results] is left as it was; with code, whatever
    happens in the run, the history grows by exactly the returned
    result. *)
Theorem test_solution_history (w : world) (self : engineer) (p : proposal) :
  if truthy (extract_code (solution p)) then
    test_results (snd (test_solution w self p))
    = (test_results self ++ [fst (test_solution w self p)])%list
  else
    test_results (snd (test_solution w self p)) = test_results self
    /\ fst (test_solution w self p) = no_code_result.
Proof.
  unfold test_solution.
  destruct (truthy (extract_code (solution p))); cbn.
  - reflexivity.
  - split; reflexivity.
Qed.

Section SpawnReached.

Variables (w : world) (self : engineer) (p : proposal).
Variables (code path : string) (timeout : Z).
Variables (answer : exn + completed) (fs' : list string).

Hypothesis found : final_code p = Some code.
Hypothesis created : tmp_create w = inr path.
Hypothesis written : tmp_write w code = None.
Hypothesis closed : tmp_close w = None.
Hypothesis configured : timeout_setting w = inr timeout.
Hypothesis spawned :
  spawn w (path :: file_system self) path code timeout = (answer, fs').

(** The [try] block up to the answer of the child process. *)
Lemma try_body_spawned :
  try_body w code (start_frame (file_system self)) =
  match answer with
  | inl e =>
      (inl e, {| res := fresh_result; temp_file := Some path; files := fs' |})
  | inr process =>
      let timed :=
        with_execution_time (clock_after w - clock_before w)%Q fresh_result in
      (inr tt,
       {| res :=
            if (returncode process =? 0)%Z
            then with_output (stdout process) (with_success timed)
            else with_issue "Code execution failed"
                   (with_error (stderr process) timed);
          temp_file := Some path;
          files := fs' |})
  end.
Proof.
  open_try. rewrite created. cbn. rewrite written, closed. cbn.
  rewrite configured. cbn. rewrite spawned. cbn.
  destruct answer as [e|process]; cbn; [reflexivity|].
  destruct (returncode process =? 0)%Z; reflexivity.
Qed.

(** C3. When the child process exceeds the timeout, [test_solution]
    returns [success = false], [error = "Code execution timed out"] and
    the issue ["TimeoutExpired"]. *)
Theorem timeout_result :
  answer = inl TimeoutExpired ->
  success (fst (test_solution w self p)) = false
  /\ error (fst (test_solution w self p)) = Some "Code execution timed out"
  /\ In "TimeoutExpired" (issues (fst (test_solution w self p))).
Proof.
  intros Ha. rewrite test_solution_eq, found. cbn.
  unfold try_except_finally. rewrite try_body_spawned, Ha.
  rewrite cleanup_res. cbn. auto.
Qed.

(** C4, as the code has it. In a run that reaches the spawn call,
    [execution_time] is the time elapsed around that call when the call
    returns, with exit code zero or not; when the call raises (timeout,
    or another exception) [execution_time] stays null. *)
Theorem execution_time_recorded :
  execution_time (fst (test_solution w self p)) =
  match answer with
  | inr _ => Some (clock_after w - clock_before w)%Q
  | inl _ => None
  end.
Proof.
  rewrite test_solution_eq, found. cbn.
  unfold try_except_finally. rewrite try_body_spawned.
  destruct answer as [[|name msg]|process]; cbv beta iota zeta;
    rewrite cleanup_res; cbn; try reflexivity.
  destruct (returncode process =? 0)%Z; reflexivity.
Qed.

End SpawnReached.

Section FileWritten.

Variables (w : world) (self : engineer) (p : proposal).
Variables (code path : string).

Hypothesis found : final_code p = Some code.
Hypothesis created : tmp_create w = inr path.
Hypothesis named : path <> EmptyString.
Hypothesis written : tmp_write w code = None.
Hypothesis removable : unlink w path = None.

(** C5, as the code has it. Once the source is written to the temporary
    file, the file no longer exists when [test_solution] returns, on
    every way out (the closing of the file fails, the timeout setting is
    not a number, the spawn raises or times out, the child exits with
    any code), unless the removal itself fails. *)
Theorem temp_file_removed :
  exists_path path (file_system (snd (test_solution w self p))) = false.
Proof.
  rewrite test_solution_eq, found. cbn.
  unfold try_except_finally.
  destruct (try_body w code (start_frame (file_system self)))
    as [[e|[]] fr'] eqn:E.
  - assert (Ht : temp_file (snd (handler e fr')) = Some path).
    { revert E. open_try. rewrite created. cbn. rewrite written. cbn.
      ask_world w; intros E; inversion E; subst; reflexivity. }
    apply cleanup_removes; assumption.
  - assert (Ht : temp_file fr' = Some path).
    { revert E. open_try. rewrite created. cbn. rewrite written. cbn.
      ask_world w; intros E; inversion E; subst; reflexivity. }
    apply cleanup_removes; assumption.
Qed.

End FileWritten.

(** When the write itself raises, the name of the file was not recorded
    yet and the [finally] clause leaves the file in place. *)
Lemma write_failure_leaves_file :
  exists_path "/tmp/tmp0.py"
    (file_system (snd (test_solution full_disk_world sample_engineer
                         sample_proposal))) = true.
Proof. vm_compute. reflexivity. Qed.

Lemma timeout_result_witness :
  success (fst (test_solution (calm_world (inl TimeoutExpired))
                  sample_engineer sample_proposal)) = false
  /\ error (fst (test_solution (calm_world (inl TimeoutExpired))
                   sample_engineer sample_proposal))
     = Some "Code execution timed out"
  /\ In "TimeoutExpired"
       (issues (fst (test_solution (calm_world (inl TimeoutExpired))
                       sample_engineer sample_proposal))).
Proof.
  apply (timeout_result (calm_world (inl TimeoutExpired)) sample_engineer
           sample_proposal
           (add_main_shim (solution sample_proposal) (goal sample_proposal))
           "/tmp/tmp0.py" 30 (inl TimeoutExpired)
           ("/tmp/tmp0.py" :: file_system sample_engineer));
    reflexivity.
Defined.

Lemma execution_time_recorded_witness :
  execution_time (fst (test_solution (calm_world (exit_with 1))
                         sample_engineer sample_proposal))
  = Some (3 - 1)%Q.
Proof.
  apply (execution_time_recorded (calm_world (exit_with 1)) sample_engineer
           sample_proposal
           (add_main_shim (solution sample_proposal) (goal sample_proposal))
           "/tmp/tmp0.py" 30 (exit_with 1)
           ("/tmp/tmp0.py" :: file_system sample_engineer));
    reflexivity.
Defined.

(** C4, as stated, fails on a timeout: the spawn began, the run failed,
    and [execution_time] is null. *)
Lemma execution_time_missing_on_timeout :
  fst (spawn (calm_world (inl TimeoutExpired)) [] "/tmp/tmp0.py"
         EmptyString 30) = inl TimeoutExpired
  /\ success (fst (test_solution (calm_world (inl TimeoutExpired))
                     sample_engineer sample_proposal)) = false
  /\ execution_time (fst (test_solution (calm_world (inl TimeoutExpired))
                            sample_engineer sample_proposal)) = None.
Proof. vm_compute. auto. Qed.

Lemma temp_file_removed_witness :
  exists_path "/tmp/tmp0.py"
    (file_system (snd (test_solution (calm_world (inl TimeoutExpired))
                         sample_engineer sample_proposal))) = false.
Proof.
  apply (temp_file_removed (calm_world (inl TimeoutExpired)) sample_engineer
           sample_proposal
           (add_main_shim (solution sample_proposal) (goal sample_proposal))
           "/tmp/tmp0.py"); try reflexivity.
  discriminate.
Defined.

(** C5, as stated, fails when the removal fails: the failure is
    swallowed and the file is still there when the call returns. *)
Lemma temp_file_left_when_unlink_fails :
  success (fst (test_solution sticky_world sample_engineer sample_proposal))
  = true
  /\ exists_path "/tmp/tmp0.py"
       (file_system (snd (test_solution sticky_world sample_engineer
                            sample_proposal))) = true.
Proof. vm_compute. auto. Qed.

(** ** Text *)

Lemma lstrip_blank (s : string) : blank s = true -> lstrip s = EmptyString.
Proof.
  induction s as [|c s IH]; cbn; [reflexivity|].
  intros H. apply andb_prop in H as [Hc Hs]. rewrite Hc. auto.
Qed.

Lemma strip_blank (s : string) : blank s = true -> strip s = EmptyString.
Proof.
  intros H. unfold strip. rewrite lstrip_blank by exact H. reflexivity.
Qed.

Lemma rstrip_head (c : ascii) (s : string) :
  isspace c = false -> rstrip (String c s) <> EmptyString.
Proof.
  intros Hc. cbn. destruct (rstrip s); [rewrite Hc|]; discriminate.
Qed.

Lemma strip_empty_blank (s : string) :
  strip s = EmptyString -> blank s = true.
Proof.
  unfold strip, blank.
  induction s as [|c s IH]; [reflexivity|].
  cbn [lstrip all_chars]. destruct (isspace c) eqn:Hc; [exact IH|].
  intros H. exfalso. exact (rstrip_head c s Hc H).
Qed.

Lemma blank_tail (c : ascii) (s : string) :
  blank (String c s) = true -> isspace c = true /\ blank s = true.
Proof. intros H. apply andb_prop in H. exact H. Qed.

Lemma isspace_not_digit (c : ascii) : isspace c = true -> isdigit c = false.
Proof.
  destruct c as [[] [] [] [] [] [] [] []]; vm_compute; congruence.
Qed.

Lemma isspace_not_minus (c : ascii) :
  isspace c = true -> Ascii.eqb c "-" = false.
Proof.
  destruct c as [[] [] [] [] [] [] [] []]; vm_compute; congruence.
Qed.

(** A text of whitespace holds no integer. *)
Lemma findall_int_blank (k : nat) (s : string) :
  blank s = true -> findall_from k re_int s = [].
Proof.
  revert s. induction k as [|k IH]; intros s H; [reflexivity|].
  destruct s as [|c s]; [reflexivity|].
  apply blank_tail in H as [Hc Hs].
  cbn [findall_from]. unfold re_int, re_digits.
  rewrite (isspace_not_minus c Hc). cbn [span].
  rewrite (isspace_not_digit c Hc). apply IH, Hs.
Qed.

Lemma extract_ints_blank (s : string) :
  strip s = EmptyString -> extract_ints s = [].
Proof.
  intros H. unfold extract_ints, findall.
  rewrite findall_int_blank; [reflexivity|].
  apply strip_empty_blank, H.
Qed.

(** ** [validate_output] *)

(** C9. For every goal, [validate_output] on an empty or whitespace-only
    output returns [meets_goal = false], confidence [0.0] and the note
    ["No output produced"]; the function is total, it raises nothing. *)
Theorem validate_blank_output (output goal : string) :
  blank output = true ->
  validate_output output goal
  = {| meets_goal := false; confidence := 0.0%Q;
       validation_notes := ["No output produced"] |}.
Proof.
  intros H. unfold validate_output.
  rewrite (strip_blank output H). cbn [String.eqb].
  rewrite orb_true_r. reflexivity.
Qed.

Lemma validate_blank_output_witness :
  validate_output (" " ++ nl ++ " ") "first 10 primes"
  = {| meets_goal := false; confidence := 0.0%Q;
       validation_notes := ["No output produced"] |}.
Proof.
  apply (validate_blank_output (" " ++ nl ++ " ") "first 10 primes").
  reflexivity.
Defined.

Lemma validate_not_blank (output goal : string) :
  strip output <> EmptyString ->
  validate_output output goal =
  let goal_lower := lower goal in
  if contains "prime" goal_lower then
    let numbers := extract_ints output in
    match numbers with
    | [] => verdict false 0.0%Q ["No numbers detected in output"]
    | _ =>
        let target_n := parse_target goal_lower in
        if contains "first" goal_lower && nonzero target_n then
          let n := match target_n with Some n => n | None => 0%Z end in
          if list_eqb (slice_to n numbers) (_first_n_primes n) then
            verdict true 0.98%Q
              ["Output matches first " ++ str_of_int n ++ " primes exactly"]
          else
            verdict false 0.2%Q
              ["First " ++ str_of_int n
               ++ " numbers do not match expected prime sequence"]
        else
          let len := Z.of_nat (List.length numbers) in
          if forallb (fun p => mem p (slice_to (Z.max 10 len) numbers))
               (slice_to 5 first_primes)
          then verdict true 0.8%Q
                 ["Output contains several correct small primes"]
          else verdict false 0.3%Q
                 ["Numbers found but may not all be primes"]
    end
  else if contains "fibonacci" goal_lower then
    let numbers := extract_ints output in
    if (5 <=? Z.of_nat (List.length numbers))%Z then
      if list_eqb (slice_to 5 numbers) fib5a
         || list_eqb (slice_to 5 numbers) fib5b
      then verdict true 0.9%Q ["Output begins with a valid Fibonacci prefix"]
      else verdict false 0.4%Q
             ["Numbers present but Fibonacci pattern unclear"]
    else verdict false 0.0%Q
           ["Too few numbers found for Fibonacci validation"]
  else
    if (10 <? Z.of_nat (String.length (strip output)))%Z then
      verdict true 0.5%Q ["Produced nontrivial output"]
    else verdict false 0.0%Q [].
Proof.
  intros H. unfold validate_output.
  assert (H1 : String.eqb (strip output) EmptyString = false)
    by (apply String.eqb_neq; exact H).
  assert (H0 : String.eqb output EmptyString = false).
  { apply String.eqb_neq. intros ->. apply H. reflexivity. }
  rewrite H0, H1. reflexivity.
Qed.

Lemma numbers_not_blank (output : string) :
  extract_ints output <> [] -> strip output <> EmptyString.
Proof. intros H E. apply H, extract_ints_blank, E. Qed.

Lemma list_eqb_eq (xs ys : list Z) : list_eqb xs ys = true <-> xs = ys.
Proof.
  unfold list_eqb. destruct (list_eq_dec Z.eq_dec xs ys); split;
    congruence.
Qed.

Lemma list_eqb_neq (xs ys : list Z) : list_eqb xs ys = false <-> xs <> ys.
Proof.
  unfold list_eqb. destruct (list_eq_dec Z.eq_dec xs ys); split;
    congruence.
Qed.

Section Fibonacci.

Variables (output goal : string).

Hypothesis fibonacci_goal : contains "fibonacci" (lower goal) = true.
Hypothesis not_prime_goal : contains "prime" (lower goal) = false.

Let numbers := extract_ints output.


End Fibonacci.



(** ** [re.findall] *)

(** Every group found is the group of a match of the pattern. *)
Lemma findall_from_match (m : matcher) (k : nat) (s g : string) :
  In g (findall_from k m s) -> exists s' rest, m s' = Some (g, rest).
Proof.
  revert s. induction k as [|k IH]; intros s H; [contradiction|].
  cbn in H. destruct (m s) as [[g' rest]|] eqn:E.
  - destruct H as [<- | H]; [eauto | eapply IH, H].
  - destruct s as [|c s]; [contradiction | eapply IH, H].
Qed.

Lemma re_def_name (s name rest : string) :
  re_def s = Some (name, rest) -> name <> EmptyString.
Proof.
  unfold re_def. destruct (expect "def" s) as [t1|]; [|discriminate].
  destruct (span isspace t1) as [[|c1 w1] t2]; [discriminate|].
  destruct (span isword t2) as [[|c n] t3]; [discriminate|].
  destruct (span isspace t3) as [w3 t4].
  destruct (expect "(" t4) as [t5|]; [|discriminate].
  destruct (span _ t5) as [w5 t6].
  destruct (expect "):" t6) as [t7|]; [|discriminate].
  intros H. inversion H. discriminate.
Qed.

Lemma findall_def_names (code f : string) :
  In f (findall re_def code) -> f <> EmptyString.
Proof.
  intros H. apply findall_from_match in H as (s' & rest & H).
  exact (re_def_name _ _ _ H).
Qed.

Lemma lower_digit (c : ascii) : isdigit (lower_char c) = isdigit c.
Proof. destruct c as [[] [] [] [] [] [] [] []]; reflexivity. Qed.

Lemma lower_char_digit (c : ascii) : isdigit c = true -> lower_char c = c.
Proof.
  destruct c as [[] [] [] [] [] [] [] []]; vm_compute; congruence.
Qed.

Lemma span_digits_lower (s : string) :
  span isdigit (lower s)
  = (fst (span isdigit s), lower (snd (span isdigit s))).
Proof.
  induction s as [|c s IH]; [reflexivity|].
  cbn [lower span]. rewrite lower_digit.
  destruct (isdigit c) eqn:Hc; [|reflexivity].
  rewrite IH. destruct (span isdigit s) as [a b]. cbn.
  rewrite (lower_char_digit c Hc). reflexivity.
Qed.

Lemma findall_digits_lower_from (k : nat) (s : string) :
  findall_from k re_digits (lower s) = findall_from k re_digits s.
Proof.
  revert s. induction k as [|k IH]; intros s; [reflexivity|].
  cbn [findall_from]. unfold re_digits. rewrite span_digits_lower.
  destruct (span isdigit s) as [[|c d] rest]; cbn [fst snd].
  - destruct s as [|c s]; [reflexivity | apply IH].
  - rewrite IH. reflexivity.
Qed.

Lemma lower_length (s : string) : String.length (lower s) = String.length s.
Proof. induction s as [|c s IH]; cbn; congruence. Qed.

(** The numbers written in a goal are those of its lower-case form. *)
Lemma findall_digits_lower (s : string) :
  findall re_digits (lower s) = findall re_digits s.
Proof.
  unfold findall. rewrite lower_length. apply findall_digits_lower_from.
Qed.

Lemma span_all (p : ascii -> bool) (s : string) :
  all_chars p (fst (span p s)) = true.
Proof.
  induction s as [|c s IH]; [reflexivity|].
  cbn [span]. destruct (p c) eqn:E; [|reflexivity].
  destruct (span p s) as [a b]. cbn in IH |- *. rewrite E, IH. reflexivity.
Qed.

Lemma digit_value_nonneg (c : ascii) :
  isdigit c = true -> (0 <= digit_value c)%Z.
Proof.
  destruct c as [[] [] [] [] [] [] [] []]; vm_compute; congruence.
Qed.

Lemma isdigit_not_minus (c : ascii) :
  isdigit c = true -> Ascii.eqb c "-" = false.
Proof.
  destruct c as [[] [] [] [] [] [] [] []]; vm_compute; congruence.
Qed.

Lemma digits_value_nonneg (s : string) (acc : Z) :
  all_chars isdigit s = true -> (0 <= acc)%Z -> (0 <= digits_value acc s)%Z.
Proof.
  revert acc. induction s as [|c s IH]; intros acc H Hacc; [exact Hacc|].
  cbn [all_chars digits_value] in H |- *. apply andb_prop in H as [Hc Hs].
  apply IH; [exact Hs|]. pose proof (digit_value_nonneg c Hc). lia.
Qed.

(** The numbers written in a text are not negative. *)
Lemma findall_digits_nonneg (s tok : string) :
  In tok (findall re_digits s) -> (0 <= int_of_token tok)%Z.
Proof.
  intros H. apply findall_from_match in H as (s' & rest & H).
  unfold re_digits in H. pose proof (span_all isdigit s') as A.
  destruct (span isdigit s') as [[|c d] r]; [discriminate H|].
  inversion H; subst. cbn [fst] in A.
  pose proof A as A'. cbn [all_chars] in A'. apply andb_prop in A' as [Hc _].
  unfold int_of_token. rewrite (isdigit_not_minus c Hc).
  apply digits_value_nonneg; [exact A | lia].
Qed.

Lemma prefix_lower (sub s : string) :
  String.prefix sub s = true -> String.prefix (lower sub) (lower s) = true.
Proof.
  revert s. induction sub as [|c sub IH]; intros s H;
    [destruct s; reflexivity|].
  destruct s as [|d s]; [discriminate H|].
  cbn in H |- *. destruct (ascii_dec c d) as [->|]; [|discriminate H].
  destruct (ascii_dec (lower_char d) (lower_char d)); [auto | congruence].
Qed.

(** A word that a text contains is contained, in lower case, in the
    lower-case form of the text. *)
Lemma contains_lower (sub s : string) :
  contains sub s = true -> contains (lower sub) (lower s) = true.
Proof.
  induction s as [|c s IH]; cbn [contains lower]; intros H.
  - rewrite orb_false_r in H |- *. exact (prefix_lower sub EmptyString H).
  - apply orb_prop in H as [H|H].
    + change (String (lower_char c) (lower s)) with (lower (String c s)).
      rewrite (prefix_lower _ _ H). reflexivity.
    + rewrite (IH H). apply orb_true_r.
Qed.

(** ** The entry point *)

Lemma find_In {A} (f : A -> bool) (l : list A) (x : A) :
  List.find f l = Some x -> In x l.
Proof. intros H. apply find_some in H. tauto. Qed.

Lemma last_In {A} (l : list A) (d : A) : l <> [] -> In (List.last l d) l.
Proof.
  induction l as [|a l IH]; [congruence|]. intros _.
  destruct l as [|b l]; [left; reflexivity|].
  right. apply IH. discriminate.
Qed.

Lemma select_main_selected (code : string) :
  findall re_def code <> [] ->
  select_main (findall re_def code)
  = Some (selected_function (findall re_def code))
  /\ selected_function (findall re_def code) <> EmptyString.
Proof.
  intros Hne. unfold select_main, selected_function.
  destruct (findall re_def code) as [|f0 fs] eqn:E; [congruence|].
  rewrite <- E in *.
  destruct (List.find hinted (findall re_def code)) as [f|] eqn:F.
  - assert (Hf : f <> EmptyString)
      by (eapply findall_def_names, find_In, F).
    destruct f as [|c f]; [congruence|]. cbn. split; [reflexivity|exact Hf].
  - cbn. split; [reflexivity|].
    apply findall_def_names with (code := code), last_In, Hne.
Qed.

Section EntryPoint.

Variables (code goal : string).

Hypothesis no_main : has_main code = false.
Hypothesis some_function : findall re_def code <> [].

Let func := selected_function (findall re_def code).

(** C7. When an entry point is added (the code has neither ["__main__"]
    nor a call of [print], and a function definition is found), its
    argument follows the goal: the first number written in the goal when
    the goal names prime and holds a number; [40] when the goal names
    prime and first and holds no number; no argument otherwise.  In each
    case the added text calls the selected function and prints what it
    returns. *)
Theorem entry_point_argument :
  (forall n rest,
      contains "prime" (lower goal) = true ->
      findall re_digits goal = n :: rest ->
      add_main_shim code goal
      = code ++ nl ++ nl
        ++ "if __name__ == " ++ dquote ++ "__main__" ++ dquote ++ ":" ++ nl
        ++ "    result = " ++ func ++ "(" ++ n ++ ")" ++ nl
        ++ "    print(result)" ++ nl)
  /\ (contains "prime" (lower goal) = true ->
      contains "first" (lower goal) = true ->
      findall re_digits goal = [] ->
      add_main_shim code goal
      = code ++ nl ++ nl
        ++ "if __name__ == " ++ dquote ++ "__main__" ++ dquote ++ ":" ++ nl
        ++ "    result = " ++ func ++ "(40)" ++ nl
        ++ "    print(result)" ++ nl)
  /\ (contains "prime" (lower goal) = false
      \/ (findall re_digits goal = []
          /\ contains "first" (lower goal) = false) ->
      add_main_shim code goal
      = code ++ nl ++ nl
        ++ "if __name__ == " ++ dquote ++ "__main__" ++ dquote ++ ":" ++ nl
        ++ "    result = " ++ func ++ "()" ++ nl
        ++ "    print(result)" ++ nl).
Proof.
  destruct (select_main_selected code some_function) as [Hsel Hname].
  fold func in Hsel, Hname.
  assert (Hshim : add_main_shim code goal =
    match findall re_digits goal with
    | n :: _ =>
        if contains "prime" (lower goal) then code ++ epilogue func n
        else code ++ epilogue func EmptyString
    | [] =>
        if contains "prime" (lower goal) && contains "first" (lower goal)
        then code ++ epilogue func "40"
        else code ++ epilogue func EmptyString
    end).
  { unfold add_main_shim. rewrite no_main. cbv zeta.
    rewrite Hsel, findall_digits_lower.
    destruct func as [|c f]; [congruence | reflexivity]. }
  rewrite Hshim. repeat split.
  - intros n rest Hp Hn. rewrite Hn, Hp. reflexivity.
  - intros Hp Hf Hn. rewrite Hn, Hp, Hf. reflexivity.
  - intros [Hp | [Hn Hf]].
    + rewrite Hp. destruct (findall re_digits goal); reflexivity.
    + rewrite Hn, Hf, andb_false_r. reflexivity.
Qed.

End EntryPoint.

Lemma entry_point_argument_witness :
  add_main_shim (solution sample_proposal) "Find the first 10 primes"
  = solution sample_proposal ++ nl ++ nl
    ++ "if __name__ == " ++ dquote ++ "__main__" ++ dquote ++ ":" ++ nl
    ++ "    result = find(10)" ++ nl
    ++ "    print(result)" ++ nl.
Proof.
  assert (no_main : has_main (solution sample_proposal) = false)
    by (vm_compute; reflexivity).
  assert (some_function : findall re_def (solution sample_proposal) <> [])
    by (vm_compute; discriminate).
  assert (prime_goal :
            contains "prime" (lower "Find the first 10 primes") = true)
    by (vm_compute; reflexivity).
  assert (number : findall re_digits "Find the first 10 primes" = ["10"])
    by (vm_compute; reflexivity).
  pose proof (proj1 (entry_point_argument (solution sample_proposal)
                       "Find the first 10 primes" no_main some_function)
                "10" [] prime_goal number) as H.
  vm_compute in H |- *. exact H.
Defined.

(** ** [extract_code] *)

Lemma prefix_app (a b s : string) :
  String.prefix (a ++ b) s = true -> String.prefix a s = true.
Proof.
  revert s. induction a as [|c a IH]; intros s H.
  - destruct s; reflexivity.
  - destruct s as [|d s]; [discriminate H|].
    cbn in H |- *. destruct (ascii_dec c d); [|discriminate H]. auto.
Qed.

Lemma contains_tail (sub : string) (c : ascii) (s : string) :
  contains sub (String c s) = false ->
  String.prefix sub (String c s) = false /\ contains sub s = false.
Proof. cbn [contains]. intros H. apply orb_false_elim in H. exact H. Qed.

(** A text without a fence holds no fenced block, whatever follows the
    fence in the opener. *)
Lemma findall_fenced_none (tag : string) (k : nat) (s : string) :
  contains fence s = false ->
  findall_from k (re_fenced (fence ++ tag)) s = [].
Proof.
  revert s. induction k as [|k IH]; intros s H; [reflexivity|].
  cbn [findall_from]. unfold re_fenced, expect.
  destruct (String.prefix (fence ++ tag) s) eqn:P.
  - apply prefix_app in P.
    assert (C : contains fence s = true)
      by (destruct s; cbn [contains]; rewrite P; reflexivity).
    congruence.
  - destruct s as [|c s]; [reflexivity|].
    apply IH. apply contains_tail in H. tauto.
Qed.

Lemma split_lines_cons (s : string) :
  exists l ls, split_lines s = l :: ls.
Proof.
  induction s as [|c s (l & ls & IH)]; cbn [split_lines].
  - exists EmptyString, []. reflexivity.
  - destruct (Ascii.eqb c newline).
    + exists EmptyString, (split_lines s). reflexivity.
    + rewrite IH. exists (String c l), ls. reflexivity.
Qed.

Lemma join_cons (l : string) (ls : list string) :
  ls <> [] -> join_lines (l :: ls) = l ++ nl ++ join_lines ls.
Proof. destruct ls; [congruence | reflexivity]. Qed.

(** Joining the lines of a text gives the text back. *)
Lemma join_split_lines (s : string) : join_lines (split_lines s) = s.
Proof.
  induction s as [|c s IH]; [reflexivity|].
  cbn [split_lines]. destruct (split_lines_cons s) as (l & ls & E).
  destruct (Ascii.eqb c newline) eqn:N.
  - apply Ascii.eqb_eq in N. subst c.
    rewrite join_cons by (rewrite E; discriminate).
    rewrite IH. reflexivity.
  - rewrite E in IH |- *. destruct ls as [|l' ls].
    + cbn in IH |- *. congruence.
    + rewrite join_cons in IH |- * by discriminate.
      cbn [append]. rewrite IH. reflexivity.
Qed.

Lemma collect_lines_closed (lines : list string) :
  forallb (fun line =>
             negb (starts_with_any (strip line) start_keywords)
             && negb (starts_with_any (strip line) statement_prefixes))
          lines = true ->
  collect_lines false lines = [].
Proof.
  induction lines as [|line rest IH]; [reflexivity|].
  cbn [forallb collect_lines]. intros H.
  apply andb_prop in H as [Hl Hr]. apply andb_prop in Hl as [Hl _].
  apply negb_true_iff in Hl. rewrite Hl. cbn [orb]. auto.
Qed.

Lemma collect_lines_open (lines : list string) :
  forallb (fun line => negb (reenters_prose (strip line))) lines = true ->
  collect_lines true lines = lines.
Proof.
  induction lines as [|line rest IH]; [reflexivity|].
  cbn [forallb collect_lines orb]. intros H.
  apply andb_prop in H as [Hl Hr]. apply negb_true_iff in Hl.
  rewrite Hl, IH by exact Hr. reflexivity.
Qed.

Lemma extract_code_heuristic (s : string) :
  unfenced s = true ->
  extract_code s =
  match collect_lines false (split_lines s) with
  | [] => None
  | code_lines => Some (join_lines code_lines)
  end.
Proof.
  unfold unfenced. intros H. apply negb_true_iff in H.
  unfold extract_code, findall.
  change ("```python" ++ nl) with (fence ++ ("python" ++ nl)).
  change ("```" ++ nl) with (fence ++ nl).
  rewrite !findall_fenced_none by exact H. reflexivity.
Qed.

(** C6, as the code has it. On a text without a fence, [extract_code]
    finds nothing when no line starts with a recognized keyword; it
    returns the text unchanged when the first line starts with [import],
    [from], [def] or [class] and every line that is not blank starts with
    a recognized prefix or ends with a colon. *)
Theorem extract_code_unfenced (s : string) :
  unfenced s = true ->
  (keyword_free s = true -> extract_code s = None)
  /\ (keyword_led s = true -> extract_code s = Some s).
Proof.
  intros U. rewrite (extract_code_heuristic s U). split.
  - intros K. unfold keyword_free in K.
    rewrite collect_lines_closed by exact K. reflexivity.
  - unfold keyword_led. intros L. apply andb_prop in L as [L1 L2].
    pose proof (join_split_lines s) as J.
    destruct (split_lines s) as [|l ls]; [discriminate L1|].
    cbn [hd] in L1. cbn [collect_lines orb]. rewrite L1.
    pose proof L2 as L3. cbn [forallb] in L3.
    apply andb_prop in L3 as [Hl Hr]. apply negb_true_iff in Hl.
    rewrite Hl, collect_lines_open by exact Hr. rewrite J. reflexivity.
Qed.

Lemma extract_code_unfenced_witness :
  extract_code ("import os" ++ nl ++ "print(os.name)")
  = Some ("import os" ++ nl ++ "print(os.name)").
Proof.
  apply (extract_code_unfenced ("import os" ++ nl ++ "print(os.name)"));
    vm_compute; reflexivity.
Defined.

(** C6, as stated, fails: on clean source without a fence and without a
    keyword nothing is extracted, so the source does not come back. *)
Lemma extract_code_keyword_free :
  unfenced "x = 1" = true
  /\ keyword_free "x = 1" = true
  /\ extract_code "x = 1" = None.
Proof. vm_compute. auto. Qed.

(** ** [validate_output] on the first primes *)


Section FirstPrimes.

Variables (output goal tok : string) (rest : list string).
Variable expected : list Z.

Hypothesis prime_goal : contains "prime" (lower goal) = true.
Hypothesis first_goal : contains "first" (lower goal) = true.
Hypothesis number : findall re_digits goal = tok :: rest.
Hypothesis not_zero : int_of_token tok <> 0%Z.
Hypothesis numbers_found : extract_ints output <> [].
Hypothesis reference :
  first_primes_of (Z.to_nat (int_of_token tok)) expected.


End FirstPrimes.



(** * More of the code *)

(** ** The primes *)

(** X1. [_is_prime] decides primality: it answers true exactly on the
    prime numbers, for every integer, negative ones included. *)
Theorem is_prime_decides (n : Z) : _is_prime n = true <-> Z.prime n.
Proof. exact (_is_prime_spec n). Qed.

(** X2. [_first_n_primes n] returns, for every integer [n], the list of
    the first [n] primes in increasing order: as many elements as [n]
    asks for (none when [n] is zero or negative), all of them prime, from
    2 on with no prime skipped. *)
Theorem first_n_primes_are_the_first (n : Z) :
  List.length (_first_n_primes n) = Z.to_nat n
  /\ consecutive_primes 1 (_first_n_primes n)
  /\ (forall p, In p (_first_n_primes n) -> Z.prime p)
  /\ (forall p q, Z.prime p -> In q (_first_n_primes n) -> (p < q)%Z ->
                  In p (_first_n_primes n)).
Proof.
  destruct (first_n_primes_run n) as (k & E & Hlen).
  rewrite E. split; [exact Hlen|]. split; [apply primes_below_consecutive|].
  split.
  - intros p Hp. apply primes_below_In in Hp. tauto.
  - intros p q Hp Hq Hlt. apply primes_below_In in Hq as [_ Hq].
    apply primes_below_In. split; [exact Hp | lia].
Qed.

(** ** The sandboxed run *)

Section Completed.

Variables (w : world) (self : engineer) (p : proposal).
Variables (code path : string) (timeout : Z).
Variables (process : completed) (fs' : list string).

Hypothesis found : final_code p = Some code.
Hypothesis created : tmp_create w = inr path.
Hypothesis written : tmp_write w code = None.
Hypothesis closed : tmp_close w = None.
Hypothesis configured : timeout_setting w = inr timeout.
Hypothesis spawned :
  spawn w (path :: file_system self) path code timeout = (inr process, fs').

(** X3. When the child process ends, the result is read off it: with
    exit code 0, [success] is true, [output] is its standard output as it
    is, and there is neither an error nor an issue; with any other exit
    code, [success] is false, [error] is its standard error as it is,
    the only issue is ["Code execution failed"] and [output] stays null.
    In both cases [execution_time] is the time elapsed around the call. *)
Theorem completed_process_result :
  fst (test_solution w self p) =
  if (returncode process =? 0)%Z then
    {| success := true; output := Some (stdout process); error := None;
       issues := [];
       execution_time := Some (clock_after w - clock_before w)%Q |}
  else
    {| success := false; output := None; error := Some (stderr process);
       issues := ["Code execution failed"];
       execution_time := Some (clock_after w - clock_before w)%Q |}.
Proof.
  rewrite test_solution_eq, found. cbn [fst].
  unfold try_except_finally.
  rewrite (try_body_spawned w self code path timeout (inr process) fs')
    by assumption.
  cbv beta iota zeta. rewrite cleanup_res. cbn [res].
  destruct (returncode process =? 0)%Z; reflexivity.
Qed.

End Completed.

Lemma completed_process_result_witness :
  fst (test_solution (calm_world (exit_with 2)) sample_engineer
         sample_proposal)
  = {| success := false; output := None; error := Some "err";
       issues := ["Code execution failed"];
       execution_time := Some (3 - 1)%Q |}.
Proof.
  apply (completed_process_result (calm_world (exit_with 2)) sample_engineer
           sample_proposal
           (add_main_shim (solution sample_proposal) (goal sample_proposal))
           "/tmp/tmp0.py" 30
           {| returncode := 2; stdout := "out"; stderr := "err" |}
           ("/tmp/tmp0.py" :: file_system sample_engineer));
    reflexivity.
Defined.

(** An exception leaves the [try] block before anything is written to
    the result. *)
Lemma try_body_raises (w : world) (code : string) (fs : list string)
  (e : exn) (fr' : frame) :
  try_body w code (start_frame fs) = (inl e, fr') -> res fr' = fresh_result.
Proof.
  open_try. ask_world w; intros E; inversion E; subst; reflexivity.
Qed.

Section Unexpected.

Variables (w : world) (self : engineer) (p : proposal).
Variables (code class_name message : string) (fr' : frame).

Hypothesis found : final_code p = Some code.
Hypothesis raised :
  try_body w code (start_frame (file_system self))
  = (inl (Raised class_name message), fr').

(** X4. When a step of the run raises an exception that is not a
    timeout (the temporary file cannot be created, written or closed,
    the timeout setting is not a number, the interpreter cannot be
    started), the exception is not passed on: the result has
    [success = false], the message of the exception as [error], the one
    issue ["Unexpected error: "] followed by the name of its class, and
    neither output nor execution time. *)
Theorem unexpected_error_result :
  fst (test_solution w self p) =
  {| success := false; output := None; error := Some message;
     issues := ["Unexpected error: " ++ class_name];
     execution_time := None |}.
Proof.
  rewrite test_solution_eq, found. cbn [fst].
  unfold try_except_finally. rewrite raised.
  rewrite cleanup_res. cbn.
  rewrite (try_body_raises _ _ _ _ _ raised). reflexivity.
Qed.

End Unexpected.

Lemma unexpected_error_result_witness :
  fst (test_solution full_disk_world sample_engineer sample_proposal)
  = {| success := false; output := None;
       error := Some "No space left on device";
       issues := ["Unexpected error: OSError"];
       execution_time := None |}.
Proof.
  apply (unexpected_error_result full_disk_world sample_engineer
           sample_proposal
           (add_main_shim (solution sample_proposal) (goal sample_proposal))
           "OSError" "No space left on device"
           {| res := fresh_result; temp_file := None;
              files := "/tmp/tmp0.py" :: file_system sample_engineer |});
    reflexivity.
Defined.

Lemma remove_fresh_path (p : string) (fs : list string) :
  exists_path p fs = false -> remove_path p (p :: fs) = fs.
Proof.
  unfold exists_path, remove_path. cbn [filter].
  rewrite String.eqb_refl. cbn [negb]. intros H.
  induction fs as [|q fs IH]; [reflexivity|].
  cbn in H |- *. apply orb_false_elim in H as [Hq Hfs].
  rewrite Hq. cbn [negb]. f_equal. exact (IH Hfs).
Qed.

Section Tidy.

Variables (w : world) (self : engineer) (p : proposal).
Variables (code path : string).

Hypothesis found : final_code p = Some code.
Hypothesis created : tmp_create w = inr path.
Hypothesis named : path <> EmptyString.
Hypothesis fresh : exists_path path (file_system self) = false.
Hypothesis written : tmp_write w code = None.
Hypothesis removable : unlink w path = None.
Hypothesis quiet_child :
  forall fs file text t, snd (spawn w fs file text t) = fs.

(** X5. A run leaves the files as it found them: when the temporary
    file gets a name that is not in use, the source is written, the
    child process creates and removes no file and the removal works,
    the files that exist after [test_solution] are those that existed
    before it, however the run ends (normal or failing exit, timeout,
    failure to close the file, to read the timeout or to spawn). *)
Theorem test_solution_leaves_files :
  file_system (snd (test_solution w self p)) = file_system self.
Proof.
  rewrite test_solution_eq, found. cbn [snd file_system].
  assert (Hbody : forall o fr',
            try_body w code (start_frame (file_system self)) = (o, fr') ->
            temp_file fr' = Some path
            /\ files fr' = path :: file_system self).
  { intros o fr'. open_try. rewrite created. cbn. rewrite written. cbn.
    destruct (tmp_close w) as [e|]; cbn;
      [intros E; inversion E; subst; split; reflexivity|].
    destruct (timeout_setting w) as [e|t]; cbn;
      [intros E; inversion E; subst; split; reflexivity|].
    pose proof (quiet_child (path :: file_system self) path code t) as Q.
    destruct (spawn w (path :: file_system self) path code t)
      as [[e|process] fs2]; cbn in Q |- *; subst fs2.
    - intros E; inversion E; subst; split; reflexivity.
    - destruct (returncode process =? 0)%Z; cbn;
        intros E; inversion E; subst; split; reflexivity. }
  assert (Hclean : forall fr',
            temp_file fr' = Some path ->
            files fr' = path :: file_system self ->
            files (cleanup w fr') = file_system self).
  { intros fr' Ht Hf. unfold cleanup. rewrite Ht, Hf.
    destruct path as [|c s]; [congruence|]. cbn [truthy andb].
    assert (Hin : exists_path (String c s) (String c s :: file_system self)
                  = true)
      by (unfold exists_path; cbn [existsb]; rewrite String.eqb_refl;
          reflexivity).
    rewrite Hin, removable. cbn [files set_files].
    apply remove_fresh_path, fresh. }
  unfold try_except_finally.
  destruct (try_body w code (start_frame (file_system self)))
    as [[e|[]] fr'] eqn:E; destruct (Hbody _ _ eq_refl) as [Ht Hf].
  - apply Hclean; destruct e; cbn; assumption.
  - apply Hclean; assumption.
Qed.

End Tidy.

Lemma test_solution_leaves_files_witness :
  file_system (snd (test_solution (calm_world (inl TimeoutExpired))
                      sample_engineer sample_proposal))
  = file_system sample_engineer.
Proof.
  apply (test_solution_leaves_files (calm_world (inl TimeoutExpired))
           sample_engineer sample_proposal
           (add_main_shim (solution sample_proposal) (goal sample_proposal))
           "/tmp/tmp0.py"); try reflexivity.
  discriminate.
Defined.

(** ** Text, continued *)

Lemma append_assoc (a b c : string) : (a ++ b) ++ c = a ++ (b ++ c).
Proof. induction a as [|x a IH]; cbn; congruence. Qed.

Lemma append_empty_r (a : string) : a ++ EmptyString = a.
Proof. induction a as [|x a IH]; cbn; congruence. Qed.

Lemma length_append (a b : string) :
  String.length (a ++ b) = (String.length a + String.length b)%nat.
Proof. induction a as [|x a IH]; cbn; congruence. Qed.

Lemma prefix_append (p rest : string) : String.prefix p (p ++ rest) = true.
Proof.
  induction p as [|c p IH]; cbn; [destruct rest; reflexivity|].
  destruct (ascii_dec c c); [exact IH | congruence].
Qed.

Lemma drop_append (p rest : string) : drop (String.length p) (p ++ rest) = rest.
Proof. induction p as [|c p IH]; cbn; [reflexivity | exact IH]. Qed.

Lemma prefix_split (p s : string) :
  String.prefix p s = true -> s = p ++ drop (String.length p) s.
Proof.
  revert s. induction p as [|c p IH]; intros s H; [reflexivity|].
  destruct s as [|d s]; [discriminate H|].
  cbn in H |- *. destruct (ascii_dec c d) as [->|]; [|discriminate H].
  f_equal. exact (IH s H).
Qed.

Lemma contains_append_r (sub a b : string) :
  contains sub b = true -> contains sub (a ++ b) = true.
Proof.
  intros H. induction a as [|c a IH]; [exact H|].
  cbn [append contains]. rewrite IH. apply orb_true_r.
Qed.

Lemma contains_head (sub rest : string) : contains sub (sub ++ rest) = true.
Proof.
  destruct (sub ++ rest) eqn:E; cbn [contains]; rewrite <- E;
    rewrite prefix_append; reflexivity.
Qed.

(** ** The entry point, continued *)

Lemma epilogue_has_main (func arg : string) :
  contains "__main__" (epilogue func arg) = true.
Proof.
  unfold epilogue.
  do 4 apply contains_append_r.
  apply contains_head.
Qed.

Lemma add_main_shim_cases (code goal : string) :
  add_main_shim code goal = code
  \/ exists func arg, add_main_shim code goal = code ++ epilogue func arg.
Proof.
  unfold add_main_shim.
  destruct (has_main code); [left; reflexivity|].
  cbv zeta.
  destruct (truthy (select_main (findall re_def code)));
    [|left; reflexivity].
  right.
  destruct (findall re_digits (lower goal)) as [|n ns];
    [destruct (contains "prime" (lower goal) && contains "first" (lower goal))
    |destruct (contains "prime" (lower goal))]; eauto.
Qed.

(** X6. Adding the entry point twice is adding it once: code that went
    through [add_main_shim] comes out of it unchanged, for every code and
    goal.  In particular the text that is added counts as an entry
    point. *)
Theorem add_main_shim_idempotent (code goal : string) :
  add_main_shim (add_main_shim code goal) goal = add_main_shim code goal.
Proof.
  destruct (add_main_shim_cases code goal) as [H | (func & arg & H)].
  - rewrite H. exact H.
  - rewrite H. unfold add_main_shim, has_main.
    rewrite (contains_append_r "__main__" code (epilogue func arg))
      by apply epilogue_has_main.
    reflexivity.
Qed.

Lemma find_first {A} (f : A -> bool) (l : list A) (x : A) :
  List.find f l = Some x ->
  exists before after,
    l = (before ++ x :: after)%list /\ f x = true
    /\ forallb (fun y => negb (f y)) before = true.
Proof.
  induction l as [|a l IH]; [discriminate|].
  cbn [List.find]. destruct (f a) eqn:E.
  - intros H. inversion H; subst. exists [], l. auto.
  - intros H. destruct (IH H) as (before & after & -> & Hx & Hb).
    exists (a :: before), after. cbn. rewrite E, Hb. auto.
Qed.

Lemma find_none_forallb {A} (f : A -> bool) (l : list A) :
  List.find f l = None -> forallb (fun y => negb (f y)) l = true.
Proof.
  induction l as [|a l IH]; [reflexivity|].
  cbn [List.find forallb]. destruct (f a); [discriminate|]. exact IH.
Qed.

Section Selection.

Variable code : string.
Hypothesis some_function : findall re_def code <> [].


End Selection.


(** ** [validate_output], continued *)


Lemma slice_to_whole {A} (xs : list A) :
  slice_to (Z.max 10 (Z.of_nat (List.length xs))) xs = xs.
Proof.
  unfold slice_to.
  destruct (Z.max 10 (Z.of_nat (List.length xs)) <? 0)%Z eqn:E;
    [apply Z.ltb_lt in E; lia|].
  apply firstn_all2. lia.
Qed.

Section SmallPrimes.

Variables (output goal : string).

Hypothesis prime_goal : contains "prime" (lower goal) = true.
Hypothesis no_count :
  contains "first" (lower goal) = false
  \/ nonzero (parse_target (lower goal)) = false.
Hypothesis numbers_found : extract_ints output <> [].


End SmallPrimes.


Section UnknownGoal.

Variables (output goal : string).

Hypothesis no_tests : generate_test_cases goal = [].
Hypothesis some_output : blank output = false.

(** X10. [generate_test_cases] and [validate_output] sort the goals the
    same way: a goal for which no test is suggested (it names neither
    prime nor fibonacci, in any case of letters) is validated by the
    general rule, which accepts an output with confidence [0.5] when its
    trimmed text is longer than 10 characters and rejects it with
    confidence [0.0] and no note otherwise. *)
Theorem unknown_goal_validation :
  validate_output output goal =
  if (10 <? Z.of_nat (String.length (strip output)))%Z then
    {| meets_goal := true; confidence := 0.5%Q;
       validation_notes := ["Produced nontrivial output"] |}
  else
    {| meets_goal := false; confidence := 0.0%Q; validation_notes := [] |}.
Proof.
  assert (Hs : strip output <> EmptyString).
  { intros E. apply strip_empty_blank in E. congruence. }
  rewrite validate_not_blank by exact Hs. cbv zeta.
  revert no_tests. unfold generate_test_cases. cbv zeta.
  destruct (contains "prime" (lower goal)); [discriminate|].
  destruct (contains "fibonacci" (lower goal)); [discriminate|].
  intros _. reflexivity.
Qed.

End UnknownGoal.

Lemma unknown_goal_validation_witness :
  validate_output "hello, world" "sort a list of words"
  = {| meets_goal := true; confidence := 0.5%Q;
       validation_notes := ["Produced nontrivial output"] |}.
Proof.
  apply (unknown_goal_validation "hello, world" "sort a list of words");
    vm_compute; reflexivity.
Defined.

(** X11. [generate_test_cases] suggests three tests for a goal that names
    prime or fibonacci, in any case of letters, and none for any other
    goal; each suggested input is 1 or more. *)
Theorem generate_test_cases_classes (goal : string) :
  (if contains "prime" (lower goal) || contains "fibonacci" (lower goal)
   then List.length (generate_test_cases goal) = 3%nat
   else generate_test_cases goal = [])
  /\ Forall (fun t => (1 <= input t)%Z) (generate_test_cases goal).
Proof.
  unfold generate_test_cases. cbv zeta.
  destruct (contains "prime" (lower goal));
    [|destruct (contains "fibonacci" (lower goal))]; cbn [orb];
    (split; [reflexivity|]); repeat constructor; cbn; lia.
Qed.

(** ** [re.findall], continued *)

Lemma findall_from_rounds (m : matcher) :
  shrinks m ->
  forall k k' s,
    (String.length s < k)%nat -> (String.length s < k')%nat ->
    findall_from k m s = findall_from k' m s.
Proof.
  intros Hm. induction k as [|k IH]; intros k' s Hk Hk'; [lia|].
  destruct k' as [|k']; [lia|]. cbn [findall_from].
  destruct (m s) as [[g rest]|] eqn:E.
  - f_equal. apply Hm in E. apply IH; lia.
  - destruct s as [|c s]; [reflexivity|]. cbn in Hk, Hk'. apply IH; lia.
Qed.

(** [findall], one start after the other. *)
Lemma findall_step (m : matcher) (s : string) :
  shrinks m ->
  findall m s =
  match m s with
  | Some (g, rest) => g :: findall m rest
  | None =>
      match s with
      | EmptyString => []
      | String _ s' => findall m s'
      end
  end.
Proof.
  intros Hm. unfold findall at 1. cbn [findall_from].
  destruct (m s) as [[g rest]|] eqn:E.
  - f_equal. apply Hm in E. apply findall_from_rounds; [exact Hm | lia..].
  - destruct s as [|c s]; [reflexivity|].
    apply findall_from_rounds; [exact Hm | cbn; lia..].
Qed.

Lemma cut_split (pat s before after : string) :
  cut pat s = Some (before, after) -> s = before ++ pat ++ after.
Proof.
  revert before. induction s as [|c s IH]; intros before; cbn [cut].
  - destruct (String.prefix pat EmptyString) eqn:P; [|discriminate].
    intros H. inversion H; subst. exact (prefix_split _ _ P).
  - destruct (String.prefix pat (String c s)) eqn:P.
    + intros H. inversion H; subst. exact (prefix_split _ _ P).
    + destruct (cut pat s) as [[b a]|]; [|discriminate].
      intros H. inversion H; subst. cbn. f_equal. apply IH. reflexivity.
Qed.

Lemma expect_split (lit s rest : string) :
  expect lit s = Some rest -> s = lit ++ rest.
Proof.
  unfold expect. destruct (String.prefix lit s) eqn:P; [|discriminate].
  intros H. inversion H; subst. exact (prefix_split _ _ P).
Qed.

(** A fenced block, as it lies in the text. *)
Lemma re_fenced_split (opener s g rest : string) :
  re_fenced opener s = Some (g, rest) -> s = opener ++ g ++ fence ++ rest.
Proof.
  unfold re_fenced. destruct (expect opener s) as [body|] eqn:E;
    [|discriminate].
  intros H. apply cut_split in H. apply expect_split in E. congruence.
Qed.

Lemma re_fenced_shrinks (opener : string) : shrinks (re_fenced opener).
Proof.
  intros s g rest H. apply re_fenced_split in H. subst s.
  rewrite !length_append. cbn. lia.
Qed.

(** Every group found lies in the text, followed by the text that the
    search resumes from; this for a pattern whose matches do. *)
Lemma findall_from_part (m : matcher) :
  (forall s g rest, m s = Some (g, rest) -> exists a, s = a ++ g ++ rest
                                                      \/ exists b, s = a ++ g ++ b ++ rest) ->
  forall k s g, In g (findall_from k m s) -> part_of g s.
Proof.
  intros Hm. induction k as [|k IH]; intros s g H; [contradiction|].
  cbn [findall_from] in H. destruct (m s) as [[g' rest]|] eqn:E.
  - destruct H as [<- | H].
    + destruct (Hm _ _ _ E) as (a & [-> | (b & ->)]).
      * exists a, rest. reflexivity.
      * exists a, (b ++ rest). reflexivity.
    + destruct (IH _ _ H) as (x & y & ->).
      destruct (Hm _ _ _ E) as (a & [-> | (b & ->)]).
      * exists (a ++ g' ++ x), y. rewrite !append_assoc. reflexivity.
      * exists (a ++ g' ++ b ++ x), y. rewrite !append_assoc. reflexivity.
  - destruct s as [|c s]; [contradiction|].
    destruct (IH _ _ H) as (x & y & ->).
    exists (String c x), y. reflexivity.
Qed.

Lemma findall_fenced_part (opener s g : string) :
  In g (findall (re_fenced opener) s) -> part_of g s.
Proof.
  apply findall_from_part. intros s' g' rest H.
  apply re_fenced_split in H. exists opener. right. exists fence. exact H.
Qed.

Lemma max_by_len_In (m : string) (ms : list string) :
  In (max_by_len m ms) (m :: ms).
Proof.
  revert m. induction ms as [|x ms IH]; intros m; [left; reflexivity|].
  cbn [max_by_len]. destruct (String.length m <? String.length x)%nat.
  - right. apply IH.
  - destruct (IH m) as [H | H]; [left; exact H | right; right; exact H].
Qed.

Lemma max_by_len_start (m : string) (ms : list string) :
  (String.length m <= String.length (max_by_len m ms))%nat.
Proof.
  revert m. induction ms as [|y ms IH]; intros m; [cbn; lia|].
  cbn [max_by_len].
  destruct (String.length m <? String.length y)%nat eqn:E; [|apply IH].
  apply Nat.ltb_lt in E. specialize (IH y). lia.
Qed.

Lemma max_by_len_longest (m : string) (ms : list string) (x : string) :
  In x (m :: ms) ->
  (String.length x <= String.length (max_by_len m ms))%nat.
Proof.
  revert m. induction ms as [|y ms IH]; intros m H.
  - destruct H as [<- | []]. cbn. lia.
  - cbn [max_by_len].
    destruct (String.length m <? String.length y)%nat eqn:E.
    + apply Nat.ltb_lt in E. destruct H as [<- | H].
      * pose proof (max_by_len_start y ms). lia.
      * apply IH. exact H.
    + apply Nat.ltb_ge in E. destruct H as [<- | [<- | H]].
      * apply max_by_len_start.
      * pose proof (max_by_len_start m ms). lia.
      * apply IH. right. exact H.
Qed.

(** ** [extract_code], continued *)

Section TaggedFence.

Variables (s m : string) (ms : list string).

Hypothesis tagged : findall (re_fenced ("```python" ++ nl)) s = m :: ms.

(** X12. When the text holds fenced blocks tagged [python], one of them
    is returned whatever else the text holds: none of them is longer
    than the one returned. *)
Theorem extract_code_tagged :
  exists code,
    extract_code s = Some code
    /\ In code (m :: ms)
    /\ (forall other, In other (m :: ms) ->
                      (String.length other <= String.length code)%nat).
Proof.
  exists (max_by_len m ms). unfold extract_code. rewrite tagged.
  split; [reflexivity|]. split; [apply max_by_len_In|].
  intros other H. apply max_by_len_longest, H.
Qed.

End TaggedFence.

Lemma extract_code_tagged_witness :
  exists code,
    extract_code ("a ```python" ++ nl ++ "x```, b ```python" ++ nl ++ "yy```")
    = Some code
    /\ In code ["x"; "yy"]
    /\ (forall other, In other ["x"; "yy"] ->
                      (String.length other <= String.length code)%nat).
Proof.
  apply (extract_code_tagged
           ("a ```python" ++ nl ++ "x```, b ```python" ++ nl ++ "yy```")
           "x" ["yy"]).
  vm_compute. reflexivity.
Defined.

Lemma tick_free_head (c : ascii) (s : string) :
  tick_free (String c s) = true ->
  Ascii.eqb c "`" = false /\ tick_free s = true.
Proof.
  unfold tick_free. cbn [all_chars]. intros H.
  apply andb_prop in H as [Hc Hs]. apply negb_true_iff in Hc. auto.
Qed.

Lemma prefix_first (c d : ascii) (p s : string) :
  Ascii.eqb d c = false -> String.prefix (String c p) (String d s) = false.
Proof.
  intros H. cbn [String.prefix].
  destruct (ascii_dec c d) as [->|]; [|reflexivity].
  rewrite Ascii.eqb_refl in H. discriminate H.
Qed.

Lemma fenced_no_tick (tag : string) (c : ascii) (rest : string) :
  Ascii.eqb c "`" = false ->
  re_fenced (fence ++ tag) (String c rest) = None.
Proof.
  intros Hc. unfold re_fenced, expect.
  change (fence ++ tag) with (String "`" ("``" ++ tag)).
  rewrite (prefix_first _ _ _ _ Hc). reflexivity.
Qed.

(** The search for fenced blocks passes over a text without backticks. *)
Lemma findall_fenced_skip (tag pre s : string) :
  tick_free pre = true ->
  findall (re_fenced (fence ++ tag)) (pre ++ s)
  = findall (re_fenced (fence ++ tag)) s.
Proof.
  induction pre as [|c pre IH]; intros H; [reflexivity|].
  apply tick_free_head in H as [Hc Hpre].
  cbn [append]. rewrite findall_step by apply re_fenced_shrinks.
  rewrite (fenced_no_tick tag c _ Hc). exact (IH Hpre).
Qed.

Lemma cut_fence_tick_free (code post : string) :
  tick_free code = true ->
  cut fence (code ++ fence ++ post) = Some (code, post).
Proof.
  induction code as [|c code IH]; intros H.
  { pose proof (prefix_append fence post) as P.
    pose proof (drop_append fence post) as D.
    unfold fence in *. cbn [append String.length] in *. cbn [cut].
    rewrite P. reflexivity. }
  apply tick_free_head in H as [Hc Hcode].
  cbn [append cut]. rewrite (IH Hcode).
  assert (P : String.prefix fence (String c (code ++ fence ++ post)) = false)
    by (apply prefix_first, Hc).
  rewrite P. reflexivity.
Qed.

Lemma findall_fenced_one (tag pre code post : string) :
  tick_free pre = true -> tick_free code = true -> tick_free post = true ->
  findall (re_fenced (fence ++ tag))
    (pre ++ (fence ++ tag) ++ code ++ fence ++ post)
  = [code].
Proof.
  intros Hpre Hcode Hpost.
  rewrite findall_fenced_skip by exact Hpre.
  rewrite findall_step by apply re_fenced_shrinks.
  assert (M : re_fenced (fence ++ tag)
                ((fence ++ tag) ++ code ++ fence ++ post)
              = Some (code, post)).
  { unfold re_fenced, expect.
    rewrite prefix_append, drop_append.
    apply cut_fence_tick_free, Hcode. }
  rewrite M. f_equal.
  rewrite <- (append_empty_r post).
  rewrite findall_fenced_skip by exact Hpost. reflexivity.
Qed.

Section FenceRoundTrip.

Variables (pre code post : string).

Hypothesis pre_plain : tick_free pre = true.
Hypothesis code_plain : tick_free code = true.
Hypothesis post_plain : tick_free post = true.

(** X13. A reply that follows the contract of the prompt gives its
    program back: for a program without a backtick, wrapped in a fence
    tagged [python], with text without a backtick before and after the
    block, [extract_code] returns the program, character for character. *)
Theorem extract_code_fenced_round_trip :
  extract_code (pre ++ "```python" ++ nl ++ code ++ "```" ++ post)
  = Some code.
Proof.
  unfold extract_code.
  change ("```python" ++ nl) with (fence ++ ("python" ++ nl)).
  change (pre ++ "```python" ++ nl ++ code ++ "```" ++ post)
    with (pre ++ (fence ++ ("python" ++ nl)) ++ code ++ fence ++ post).
  rewrite findall_fenced_one by assumption. reflexivity.
Qed.

End FenceRoundTrip.

Lemma extract_code_fenced_round_trip_witness :
  extract_code ("Here it is: " ++ "```python" ++ nl
                ++ ("print(" ++ "1 + 1" ++ ")" ++ nl) ++ "```" ++ " Done.")
  = Some ("print(" ++ "1 + 1" ++ ")" ++ nl).
Proof.
  apply (extract_code_fenced_round_trip "Here it is: "
           ("print(" ++ "1 + 1" ++ ")" ++ nl) " Done.");
    vm_compute; reflexivity.
Defined.

Lemma collect_lines_prefix (lines : list string) :
  exists post, lines = (collect_lines true lines ++ post)%list.
Proof.
  induction lines as [|line rest (post & IH)]; [exists []; reflexivity|].
  cbn [collect_lines orb].
  destruct (reenters_prose (strip line)); [exists (line :: rest); reflexivity|].
  exists post. cbn. f_equal. exact IH.
Qed.

(** The lines collected follow one another in the text. *)
Lemma collect_lines_segment (lines : list string) :
  exists pre post,
    lines = (pre ++ collect_lines false lines ++ post)%list.
Proof.
  induction lines as [|line rest (pre & post & IH)];
    [exists [], []; reflexivity|].
  cbn [collect_lines orb].
  destruct (starts_with_any (strip line) start_keywords).
  - destruct (reenters_prose (strip line));
      [exists [], (line :: rest); reflexivity|].
    destruct (collect_lines_prefix rest) as (post' & E).
    exists [], post'. cbn. f_equal. exact E.
  - exists (line :: pre), post. cbn. f_equal. exact IH.
Qed.

Lemma join_app (xs ys : list string) :
  xs <> [] -> ys <> [] ->
  join_lines (xs ++ ys) = join_lines xs ++ nl ++ join_lines ys.
Proof.
  intros Hx Hy. induction xs as [|x xs IH]; [congruence|].
  destruct xs as [|x' xs].
  - cbn [app]. apply join_cons, Hy.
  - change ((x :: x' :: xs) ++ ys)%list with (x :: ((x' :: xs) ++ ys))%list.
    rewrite join_cons by discriminate.
    rewrite (join_cons x (x' :: xs)) by discriminate.
    rewrite IH by discriminate. rewrite !append_assoc. reflexivity.
Qed.

Lemma part_of_refl (s : string) : part_of s s.
Proof. exists EmptyString, EmptyString. cbn. rewrite append_empty_r. reflexivity. Qed.

Lemma part_of_inside (c s a b : string) : part_of c s -> part_of c (a ++ s ++ b).
Proof.
  intros (x & y & ->). exists (a ++ x), (y ++ b).
  rewrite !append_assoc. reflexivity.
Qed.

Lemma join_segment (pre seg post : list string) :
  seg <> [] -> part_of (join_lines seg) (join_lines (pre ++ seg ++ post)).
Proof.
  intros Hseg.
  assert (Htail : part_of (join_lines seg) (join_lines (seg ++ post))).
  { destruct post as [|q post].
    - rewrite app_nil_r. apply part_of_refl.
    - rewrite join_app by (exact Hseg || discriminate).
      exists EmptyString, (nl ++ join_lines (q :: post)). reflexivity. }
  destruct pre as [|q pre]; [exact Htail|].
  rewrite join_app; [|discriminate|destruct seg; [congruence | discriminate]].
  destruct Htail as (x & y & ->).
  exists (join_lines (q :: pre) ++ nl ++ x), y.
  rewrite !append_assoc. reflexivity.
Qed.

(** X14. Extraction is selection: whatever [extract_code] returns
    occurs in the text as it is, character for character; nothing is
    added, removed or indented anew inside it. *)
Theorem extract_code_selects (s code : string) :
  extract_code s = Some code -> part_of code s.
Proof.
  unfold extract_code.
  destruct (findall (re_fenced ("```python" ++ nl)) s) as [|m ms] eqn:T.
  - destruct (findall (re_fenced ("```" ++ nl)) s) as [|m ms] eqn:G.
    + destruct (collect_lines_segment (split_lines s)) as (pre & post & E).
      destruct (collect_lines false (split_lines s)) as [|l ls];
        [discriminate|].
      intros H. inversion H; subst code.
      pose proof (join_split_lines s) as J. rewrite E in J.
      rewrite <- J. apply join_segment. discriminate.
    + destruct (looks_like_code (max_by_len m ms)).
      * intros H. inversion H; subst code.
        apply (findall_fenced_part ("```" ++ nl)). rewrite G.
        apply max_by_len_In.
      * destruct (collect_lines_segment (split_lines s)) as (pre & post & E).
        destruct (collect_lines false (split_lines s)) as [|l ls];
          [discriminate|].
        intros H. inversion H; subst code.
        pose proof (join_split_lines s) as J. rewrite E in J.
        rewrite <- J. apply join_segment. discriminate.
  - intros H. inversion H; subst code.
    apply (findall_fenced_part ("```python" ++ nl)). rewrite T.
    apply max_by_len_In.
Qed.

Lemma extract_code_selects_witness :
  part_of ("import os" ++ nl ++ "print(os.name)")
    ("Try this." ++ nl ++ "import os" ++ nl ++ "print(os.name)" ++ nl
     ++ "That is all.").
Proof.
  apply (extract_code_selects
           ("Try this." ++ nl ++ "import os" ++ nl ++ "print(os.name)" ++ nl
            ++ "That is all.")
           ("import os" ++ nl ++ "print(os.name)")).
  vm_compute. reflexivity.
Defined.

(** ** The Researcher *)

Lemma filter_and {A} (p q : A -> bool) (l : list A) :
  filter (fun x => p x && q x) l = filter p (filter q l).
Proof.
  induction l as [|a l IH]; [reflexivity|]. cbn [filter].
  destruct (q a); cbn [filter]; rewrite ?andb_true_r, ?andb_false_r;
    [destruct (p a); rewrite IH; reflexivity | exact IH].
Qed.

Lemma filter_swap {A} (p q : A -> bool) (l : list A) :
  filter p (filter q l) = filter q (filter p l).
Proof.
  rewrite <- !filter_and. apply filter_ext. intros a. apply andb_comm.
Qed.

Lemma filter_twice {A} (p : A -> bool) (l : list A) :
  filter p (filter p l) = filter p l.
Proof.
  rewrite <- filter_and. apply filter_ext. intros a. destruct (p a); reflexivity.
Qed.

Lemma first_occurrences_filter (p : string -> bool) (l : list string) :
  first_occurrences (filter p l) = filter p (first_occurrences l).
Proof.
  induction l as [|x l IH]; [reflexivity|].
  change (first_occurrences (x :: l))
    with (x :: filter (fun y => negb (String.eqb x y)) (first_occurrences l)).
  change (filter p (x :: l)) with (if p x then x :: filter p l else filter p l).
  change (filter p (x :: filter (fun y => negb (String.eqb x y))
                          (first_occurrences l)))
    with (if p x
          then x :: filter p (filter (fun y => negb (String.eqb x y))
                                (first_occurrences l))
          else filter p (filter (fun y => negb (String.eqb x y))
                           (first_occurrences l))).
  destruct (p x) eqn:E.
  - cbn [first_occurrences]. rewrite IH. f_equal. apply filter_swap.
  - rewrite IH, <- filter_and. apply filter_ext. intros y.
    destruct (String.eqb x y) eqn:Exy; cbn [negb];
      [|rewrite andb_true_r; reflexivity].
    apply String.eqb_eq in Exy. subst y. rewrite E. reflexivity.
Qed.

(** The loop over the strategies adds, to what was kept before it, the
    first occurrences of those not seen before. *)
Lemma keep_unseen_first (items uniq seen : list string) :
  keep_unseen items uniq seen
  = (uniq ++ first_occurrences
               (filter (fun y => negb (in_set y seen)) items))%list.
Proof.
  revert uniq seen. induction items as [|s rest IH]; intros uniq seen.
  - cbn. rewrite app_nil_r. reflexivity.
  - cbn [keep_unseen filter]. destruct (in_set s seen) eqn:E; cbn [negb].
    + apply IH.
    + rewrite IH. cbn [first_occurrences]. rewrite <- app_assoc. cbn [app].
      f_equal. f_equal. rewrite <- first_occurrences_filter. f_equal.
      rewrite <- filter_and. apply filter_ext. intros y.
      unfold in_set. cbn [existsb]. rewrite negb_orb.
      rewrite (String.eqb_sym s y). reflexivity.
Qed.

Lemma slice_to_min {A} (xs : list A) :
  slice_to (Z.min (Z.of_nat (List.length xs)) 3) xs = firstn 3 xs.
Proof.
  unfold slice_to.
  destruct (Z.min (Z.of_nat (List.length xs)) 3 <? 0)%Z eqn:E;
    [apply Z.ltb_lt in E; lia|].
  destruct (Z.min_spec (Z.of_nat (List.length xs)) 3) as [[H ->] | [H ->]].
  - rewrite Nat2Z.id. rewrite !firstn_all2 by lia. reflexivity.
  - reflexivity.
Qed.

Lemma filter_all {A} (f : A -> bool) (l : list A) :
  (forall x, f x = true) -> filter f l = l.
Proof.
  intros H. induction l as [|a l IH]; [reflexivity|].
  cbn [filter]. rewrite H, IH. reflexivity.
Qed.

Lemma compose_strategies_spec (strategies : list string) :
  _compose_strategies strategies = firstn 3 (first_occurrences strategies).
Proof.
  unfold _compose_strategies. destruct strategies as [|s rest]; [reflexivity|].
  cbv zeta. rewrite slice_to_min, keep_unseen_first. cbn [app].
  rewrite filter_all by reflexivity. reflexivity.
Qed.

(** X15. [_compose_strategies] keeps the first three of the distinct
    strategies, in the order in which they first appear: a strategy that
    comes again is dropped where it comes again, and an empty list gives
    an empty list. *)
Theorem compose_strategies_first_three (strategies : list string) :
  _compose_strategies strategies = firstn 3 (first_occurrences strategies).
Proof. exact (compose_strategies_spec strategies). Qed.

Lemma first_occurrences_In (l : list string) (y : string) :
  In y (first_occurrences l) <-> In y l.
Proof.
  induction l as [|x l IH]; [reflexivity|].
  cbn [first_occurrences In]. rewrite filter_In, IH. split.
  - intros [H | [H _]]; auto.
  - intros [H | H]; [left; exact H|].
    destruct (String.eqb x y) eqn:E.
    + left. apply String.eqb_eq, E.
    + right. split; [exact H | reflexivity].
Qed.

Lemma first_occurrences_NoDup (l : list string) :
  NoDup (first_occurrences l).
Proof.
  induction l as [|x l IH]; [constructor|].
  cbn [first_occurrences]. constructor.
  - rewrite filter_In. intros [_ H]. rewrite String.eqb_refl in H.
    discriminate H.
  - apply NoDup_filter, IH.
Qed.

Lemma filter_all_in {A} (f : A -> bool) (l : list A) :
  (forall x, In x l -> f x = true) -> filter f l = l.
Proof.
  intros H. induction l as [|a l IH]; [reflexivity|].
  cbn [filter]. rewrite (H a (or_introl eq_refl)), IH; [reflexivity|].
  intros x Hx. apply H. right. exact Hx.
Qed.

Lemma first_occurrences_distinct (l : list string) :
  NoDup l -> first_occurrences l = l.
Proof.
  induction l as [|x l IH]; intros H; [reflexivity|].
  inversion H as [|? ? Hx Hl]; subst.
  cbn [first_occurrences]. rewrite (IH Hl). f_equal.
  apply filter_all_in. intros y Hy.
  destruct (String.eqb x y) eqn:E; [|reflexivity].
  apply String.eqb_eq in E. subst y. contradiction.
Qed.

Lemma NoDup_firstn {A} (n : nat) (l : list A) : NoDup l -> NoDup (firstn n l).
Proof.
  intros H. rewrite <- (firstn_skipn n l) in H.
  exact (NoDup_app_remove_r _ _ H).
Qed.

Lemma In_firstn {A} (n : nat) (l : list A) (x : A) :
  In x (firstn n l) -> In x l.
Proof.
  intros H. rewrite <- (firstn_skipn n l). apply in_or_app. left. exact H.
Qed.

(** X16. What [_compose_strategies] returns holds at most three
    strategies, none of them twice, each of them one of those given;
    when no more than three distinct strategies are given, each of them
    is kept; and composing again changes nothing. *)
Theorem compose_strategies_curated (strategies : list string) :
  (List.length (_compose_strategies strategies) <= 3)%nat
  /\ NoDup (_compose_strategies strategies)
  /\ (forall s, In s (_compose_strategies strategies) -> In s strategies)
  /\ ((List.length (first_occurrences strategies) <= 3)%nat ->
      forall s, In s strategies -> In s (_compose_strategies strategies))
  /\ _compose_strategies (_compose_strategies strategies)
     = _compose_strategies strategies.
Proof.
  rewrite !compose_strategies_spec.
  split; [apply firstn_le_length|].
  split; [apply NoDup_firstn, first_occurrences_NoDup|].
  split; [intros s H; apply In_firstn in H;
          apply first_occurrences_In, H|].
  split.
  - intros Hlen s H. rewrite firstn_all2 by exact Hlen.
    apply first_occurrences_In, H.
  - rewrite first_occurrences_distinct
      by apply NoDup_firstn, first_occurrences_NoDup.
    rewrite firstn_firstn. reflexivity.
Qed.

Section ContractReply.

Variables (c : collaborators) (self : researcher).
Variables (goal_text : string) (previous_feedback : option string).
Variables (pre code post : string).

Hypothesis reply :
  forall prompt system max_tokens,
    query c prompt system max_tokens
    = pre ++ "```python" ++ nl ++ code ++ "```" ++ post.
Hypothesis pre_plain : tick_free pre = true.
Hypothesis code_plain : tick_free code = true.
Hypothesis post_plain : tick_free post = true.
Hypothesis some_code : code <> EmptyString.


End ContractReply.


(** ** Printed integers *)

Lemma digits_of_uint (d : Decimal.uint) (acc : Z) :
  digits_value acc (NilEmpty.string_of_uint d) = uint_value acc d.
Proof.
  revert acc. induction d as [|d IH|d IH|d IH|d IH|d IH|d IH|d IH|d IH|d IH|d IH];
    intros acc; cbn [NilEmpty.string_of_uint digits_value uint_value];
    [reflexivity | rewrite IH; reflexivity ..].
Qed.

Lemma uint_value_acc (d : Decimal.uint) (p : positive) :
  uint_value (Zpos p) d = Zpos (Pos.of_uint_acc d p).
Proof.
  revert p. induction d as [|d IH|d IH|d IH|d IH|d IH|d IH|d IH|d IH|d IH|d IH];
    intros p; cbn [uint_value Pos.of_uint_acc]; [reflexivity|..];
    rewrite <- IH; f_equal; lia.
Qed.

Lemma uint_value_of_uint (d : Decimal.uint) :
  uint_value 0 d = Z.of_N (Pos.of_uint d).
Proof.
  induction d as [|d IH|d IH|d IH|d IH|d IH|d IH|d IH|d IH|d IH|d IH];
    cbn [uint_value Pos.of_uint]; [reflexivity | exact IH | ..];
    cbn [Z.mul Z.add Z.of_N]; apply uint_value_acc.
Qed.

Lemma digits_all (d : Decimal.uint) :
  all_chars isdigit (NilEmpty.string_of_uint d) = true.
Proof.
  induction d as [|d IH|d IH|d IH|d IH|d IH|d IH|d IH|d IH|d IH|d IH];
    cbn [NilEmpty.string_of_uint all_chars]; [reflexivity|..];
    rewrite IH; reflexivity.
Qed.

(** The digits of a positive number: not empty, all digits, and their
    value is the number. *)
Lemma digits_of_positive (p : positive) :
  exists c ds,
    NilZero.string_of_uint (Pos.to_uint p) = String c ds
    /\ all_chars isdigit (String c ds) = true
    /\ digits_value 0 (String c ds) = Zpos p.
Proof.
  pose proof (DecimalPos.Unsigned.to_uint_nonnil p) as Hnil.
  pose proof (DecimalPos.Unsigned.of_to p) as Hval.
  pose proof (digits_all (Pos.to_uint p)) as Hall.
  pose proof (digits_of_uint (Pos.to_uint p) 0) as Hdig.
  rewrite uint_value_of_uint, Hval in Hdig.
  assert (E : NilZero.string_of_uint (Pos.to_uint p)
              = NilEmpty.string_of_uint (Pos.to_uint p))
    by (destruct (Pos.to_uint p); [congruence | reflexivity ..]).
  rewrite E.
  destruct (NilEmpty.string_of_uint (Pos.to_uint p)) as [|c ds] eqn:S.
  - destruct (Pos.to_uint p); cbn in S; congruence.
  - exists c, ds. auto.
Qed.

Lemma span_split (p : ascii -> bool) (s : string) :
  s = fst (span p s) ++ snd (span p s).
Proof.
  induction s as [|c s IH]; [reflexivity|].
  cbn [span]. destruct (p c); [|reflexivity].
  destruct (span p s) as [a b]. cbn in IH |- *. congruence.
Qed.

Lemma re_digits_shrinks : shrinks re_digits.
Proof.
  intros s g rest. unfold re_digits.
  pose proof (span_split isdigit s) as E.
  destruct (span isdigit s) as [[|c d] r]; [discriminate|].
  intros H. inversion H; subst g rest. cbn [fst snd] in E. rewrite E.
  rewrite length_append. cbn. lia.
Qed.

Lemma re_int_shrinks : shrinks re_int.
Proof.
  intros s g rest. unfold re_int. destruct s as [|c s]; [discriminate|].
  destruct (Ascii.eqb c "-").
  - destruct (re_digits s) as [[d r]|] eqn:E; [|discriminate].
    intros H. inversion H; subst. apply re_digits_shrinks in E. cbn. lia.
  - apply re_digits_shrinks.
Qed.

Lemma span_digits (ds rest : string) :
  all_chars isdigit ds = true -> ends_number rest = true ->
  span isdigit (ds ++ rest) = (ds, rest).
Proof.
  intros Hds Hrest. induction ds as [|c ds IH].
  - destruct rest as [|c rest]; [reflexivity|].
    cbn in Hrest |- *. apply negb_true_iff in Hrest. rewrite Hrest.
    reflexivity.
  - cbn [all_chars] in Hds. apply andb_prop in Hds as [Hc Hds].
    cbn [append span]. rewrite Hc, (IH Hds). reflexivity.
Qed.

Lemma re_digits_run (c : ascii) (ds rest : string) :
  all_chars isdigit (String c ds) = true -> ends_number rest = true ->
  re_digits (String c ds ++ rest) = Some (String c ds, rest).
Proof.
  intros Hds Hrest. unfold re_digits. rewrite span_digits by assumption.
  reflexivity.
Qed.

(** An integer as [str] writes it is read back by the pattern and by
    [int]. *)
Lemma str_of_int_token (z : Z) (rest : string) :
  ends_number rest = true ->
  re_int (str_of_int z ++ rest) = Some (str_of_int z, rest)
  /\ int_of_token (str_of_int z) = z.
Proof.
  intros Hrest. unfold str_of_int. destruct z as [|p|p].
  - change (NilZero.string_of_int (Z.to_int 0)) with "0".
    split; [|reflexivity].
    unfold re_int. cbn [append]. change (Ascii.eqb "0" "-") with false.
    cbv iota. exact (re_digits_run "0" EmptyString rest eq_refl Hrest).
  - cbn [Z.to_int NilZero.string_of_int].
    destruct (digits_of_positive p) as (c & ds & -> & Hall & Hval).
    pose proof Hall as Hc. cbn [all_chars] in Hc.
    apply andb_prop in Hc as [Hc _].
    split.
    + unfold re_int. cbn [append]. rewrite (isdigit_not_minus c Hc).
      exact (re_digits_run c ds rest Hall Hrest).
    + unfold int_of_token. rewrite (isdigit_not_minus c Hc). exact Hval.
  - cbn [Z.to_int NilZero.string_of_int].
    destruct (digits_of_positive p) as (c & ds & -> & Hall & Hval).
    split.
    + unfold re_int. cbn [append]. rewrite Ascii.eqb_refl.
      change (String c (ds ++ rest)) with (String c ds ++ rest).
      rewrite (re_digits_run c ds rest Hall Hrest). reflexivity.
    + unfold int_of_token. rewrite Ascii.eqb_refl, Hval. reflexivity.
Qed.

Lemma re_int_skip (c : ascii) (rest : string) :
  isdigit c = false -> Ascii.eqb c "-" = false ->
  findall re_int (String c rest) = findall re_int rest.
Proof.
  intros Hd Hm. rewrite findall_step by apply re_int_shrinks.
  unfold re_int, re_digits. rewrite Hm. cbn [span]. rewrite Hd. reflexivity.
Qed.

Lemma findall_int_token (z : Z) (rest : string) :
  ends_number rest = true ->
  map int_of_token (findall re_int (str_of_int z ++ rest))
  = z :: map int_of_token (findall re_int rest).
Proof.
  intros Hrest. destruct (str_of_int_token z rest Hrest) as [Hm Hv].
  rewrite findall_step by apply re_int_shrinks. rewrite Hm.
  cbn [map]. rewrite Hv. reflexivity.
Qed.

Lemma findall_int_joined (l : list Z) (tail : string) :
  ends_number tail = true -> findall re_int tail = [] ->
  map int_of_token
    (findall re_int (join ", " (map str_of_int l) ++ tail))
  = l.
Proof.
  intros Hend Htail. induction l as [|x l IH].
  - change (join ", " (map str_of_int []) ++ tail) with tail.
    rewrite Htail. reflexivity.
  - destruct l as [|y l].
    + change (join ", " (map str_of_int [x]) ++ tail)
        with (str_of_int x ++ tail).
      rewrite findall_int_token by exact Hend.
      rewrite Htail. reflexivity.
    + change (join ", " (map str_of_int (x :: y :: l)))
        with (str_of_int x ++ ", " ++ join ", " (map str_of_int (y :: l))).
      rewrite !append_assoc.
      rewrite findall_int_token by reflexivity.
      change (", " ++ join ", " (map str_of_int (y :: l)) ++ tail)
        with (String "," (String " "
                (join ", " (map str_of_int (y :: l)) ++ tail))).
      rewrite !re_int_skip by reflexivity.
      rewrite IH. reflexivity.
Qed.

Lemma extract_ints_printed (l : list Z) :
  extract_ints (printed_list l) = l.
Proof.
  unfold extract_ints, printed_list.
  change ("[" ++ join ", " (map str_of_int l) ++ "]" ++ nl)
    with (String "[" (join ", " (map str_of_int l) ++ "]" ++ nl)).
  rewrite re_int_skip by reflexivity.
  apply findall_int_joined; reflexivity.
Qed.


(** ** From the printed list to the verdict *)

Lemma validate_exact_prefix (output goal tok : string) (rest : list string) :
  contains "prime" (lower goal) = true ->
  contains "first" (lower goal) = true ->
  findall re_digits goal = tok :: rest ->
  int_of_token tok <> 0%Z ->
  extract_ints output <> [] ->
  validate_output output goal =
  if list_eqb (firstn (Z.to_nat (int_of_token tok)) (extract_ints output))
       (_first_n_primes (int_of_token tok))
  then verdict true 0.98%Q
         ["Output matches first " ++ str_of_int (int_of_token tok)
          ++ " primes exactly"]
  else verdict false 0.2%Q
         ["First " ++ str_of_int (int_of_token tok)
          ++ " numbers do not match expected prime sequence"].
Proof.
  intros Hprime Hfirst Hnum Hnz Hout.
  assert (Hpos : (0 < int_of_token tok)%Z).
  { pose proof (findall_digits_nonneg goal tok) as H.
    rewrite Hnum in H. specialize (H (or_introl eq_refl)). lia. }
  rewrite validate_not_blank by (apply numbers_not_blank, Hout).
  cbv zeta. rewrite Hprime, Hfirst.
  unfold parse_target. rewrite findall_digits_lower, Hnum.
  destruct (extract_ints output) as [|x xs] eqn:E; [congruence|].
  assert (Hz : (int_of_token tok =? 0)%Z = false) by (apply Z.eqb_neq; lia).
  cbn [nonzero andb]. rewrite Hz. cbn [negb].
  unfold slice_to.
  assert (Hneg : (int_of_token tok <? 0)%Z = false) by (apply Z.ltb_ge; lia).
  rewrite Hneg. reflexivity.
Qed.

Section PrintedPrimes.

Variables (goal tok : string) (rest : list string).
Variables (primes more : list Z).

Hypothesis prime_goal : contains "prime" (lower goal) = true.
Hypothesis first_goal : contains "first" (lower goal) = true.
Hypothesis number : findall re_digits goal = tok :: rest.
Hypothesis not_zero : int_of_token tok <> 0%Z.
Hypothesis reference : first_primes_of (Z.to_nat (int_of_token tok)) primes.


End PrintedPrimes.


(** ** [extract_code] by lines *)

Lemma collect_lines_before (pre lines : list string) :
  forallb (fun l => negb (starts_with_any (strip l) start_keywords)) pre
  = true ->
  collect_lines false (pre ++ lines) = collect_lines false lines.
Proof.
  induction pre as [|l pre IH]; [reflexivity|].
  cbn [forallb app collect_lines orb]. intros H.
  apply andb_prop in H as [Hl Hpre]. apply negb_true_iff in Hl.
  rewrite Hl. exact (IH Hpre).
Qed.

Lemma collect_lines_until (block : list string) (stop : string)
  (post : list string) :
  forallb (fun l => negb (reenters_prose (strip l))) block = true ->
  reenters_prose (strip stop) = true ->
  collect_lines true (block ++ stop :: post) = block.
Proof.
  intros Hblock Hstop. induction block as [|l block IH].
  - cbn [app collect_lines orb]. rewrite Hstop. reflexivity.
  - cbn [forallb] in Hblock. apply andb_prop in Hblock as [Hl Hb].
    apply negb_true_iff in Hl.
    cbn [app collect_lines orb]. rewrite Hl, (IH Hb). reflexivity.
Qed.

Section ByLines.

Variables (s first_line stop : string) (pre block post : list string).

Hypothesis no_fence : unfenced s = true.
Hypothesis lines :
  split_lines s = (pre ++ (first_line :: block) ++ stop :: post)%list.
Hypothesis before :
  forallb (fun l => negb (starts_with_any (strip l) start_keywords)) pre
  = true.
Hypothesis opening : starts_with_any (strip first_line) start_keywords = true.
Hypothesis inside :
  forallb (fun l => negb (reenters_prose (strip l))) (first_line :: block)
  = true.
Hypothesis closing : reenters_prose (strip stop) = true.

(** X20. In a text without a fence the code is found by its lines: what
    comes before the first line that starts with [import], [from], [def]
    or [class] is dropped, the lines from that one on are kept as they
    are, and the first line that is not blank, starts with no recognized
    prefix and does not end with a colon ends the code; that line and
    all that follows are dropped. *)
Theorem extract_code_by_lines :
  extract_code s = Some (join_lines (first_line :: block)).
Proof.
  rewrite (extract_code_heuristic s no_fence), lines.
  rewrite collect_lines_before by exact before.
  cbn [app collect_lines orb]. rewrite opening.
  pose proof inside as Hin. cbn [forallb] in Hin.
  apply andb_prop in Hin as [Hfirst Hblock]. apply negb_true_iff in Hfirst.
  rewrite Hfirst, collect_lines_until by assumption. reflexivity.
Qed.

End ByLines.

Lemma extract_code_by_lines_witness :
  extract_code ("Try this." ++ nl ++ "import os" ++ nl ++ "print(os.name)"
                ++ nl ++ "That is all." ++ nl ++ "import sys")
  = Some (join_lines ["import os"; "print(os.name)"]).
Proof.
  apply (extract_code_by_lines
           ("Try this." ++ nl ++ "import os" ++ nl ++ "print(os.name)"
            ++ nl ++ "That is all." ++ nl ++ "import sys")
           "import os" "That is all." ["Try this."] ["print(os.name)"]
           ["import sys"]);
    vm_compute; reflexivity.
Defined.

Section EmptyBlock.

Variables (w : world) (self : engineer).
Variables (goal_text pre post notes_text : string).
Variable strategies : list string.

Hypothesis pre_plain : tick_free pre = true.
Hypothesis post_plain : tick_free post = true.

(** X21. An empty block tagged [python] counts as no code, whatever
    stands around it: the fenced block is taken before the lines of the
    text are looked at, so even when the text around it holds lines of
    code, [test_solution] returns the result of a solution without code
    and touches neither its history nor any file. *)
Theorem empty_block_is_no_code :
  test_solution w self
    {| goal := goal_text;
       solution := pre ++ "```python" ++ nl ++ "```" ++ post;
       strategies_used := strategies;
       notes := notes_text |}
  = (no_code_result, self).
Proof.
  rewrite test_solution_eq. unfold final_code. cbn [solution].
  assert (E : extract_code (pre ++ "```python" ++ nl ++ "```" ++ post)
              = Some EmptyString).
  { unfold extract_code.
    change ("```python" ++ nl) with (fence ++ ("python" ++ nl)).
    change (pre ++ "```python" ++ nl ++ "```" ++ post)
      with (pre ++ (fence ++ ("python" ++ nl)) ++ EmptyString ++ fence
            ++ post).
    rewrite findall_fenced_one by (assumption || reflexivity).
    reflexivity. }
  rewrite E. reflexivity.
Qed.

End EmptyBlock.

Lemma empty_block_is_no_code_witness :
  test_solution (calm_world (exit_with 0)) sample_engineer
    {| goal := "first 10 primes";
       solution := ("import os" ++ nl) ++ "```python" ++ nl ++ "```"
                   ++ EmptyString;
       strategies_used := [];
       notes := EmptyString |}
  = (no_code_result, sample_engineer).
Proof.
  apply (empty_block_is_no_code (calm_world (exit_with 0)) sample_engineer
           "first 10 primes" ("import os" ++ nl) EmptyString EmptyString []);
    vm_compute; reflexivity.
Defined.
